(** * abcProve.c: the escalating miter prover of ABC

    A shallow embedding of [Abc_NtkMiterProve] and [Abc_NtkMiterFraig]
    (src/base/abci/abcProve.c) and the properties of its control flow:
    the minimal-effort mode, the escalation loop with its three stages,
    the accounting of the global limits, the BDD fallback, the last SAT
    attempt and the assignment of the trivial model.

    The decision procedures themselves (SAT, rewriting, refactoring,
    balancing, fraiging, BDD collapsing) live in other packages of ABC.
    They are taken as an interface, [Engines]; every call the prover
    makes to one of them is recorded, in order, in a trace. *)

From Stdlib Require Import ZArith List Bool Lia QArith Qround SpecFloat.
Import ListNotations.
Local Open Scope Z_scope.

Set Implicit Arguments.

(** ** Results of a run *)

(** What can go wrong in the C code besides the engines' own verdicts:
    - [UninitRead]: the local [RetValue] is read before any assignment;
    - [DivByZero]: [(1<<27) / (Abc_NtkNodeNum(pNtk) + Abc_NtkCiNum(pNtk))]
      in [Abc_NtkMiterFraig] with a zero divisor;
    - [OutOfFuel]: the [while ( 1 )] of the rewriting stage did not leave
      within the number of passes the model was given. *)
Inductive fault : Type := UninitRead | DivByZero | OutOfFuel.

Inductive outcome (A : Type) : Type :=
| Ok (a : A)
| Fault (f : fault).
Arguments Fault {A} f.

Definition bind {A B : Type} (m : outcome A) (k : A -> outcome B) : outcome B :=
  match m with
  | Ok a => k a
  | Fault f => Fault f
  end.

Notation "x <- m ;; k" := (bind m (fun x => k))
  (at level 61, m at next level, right associativity).
Notation "' p <- m ;; k" := (bind m (fun x => match x with p => k end))
  (at level 61, p pattern, m at next level, right associativity).

(** ** Data *)

(** [Abc_Ntk_t]: the prover looks at one field, [pModel]; the rest of the
    network (objects, fanins, the function manager) is the engines' matter
    and stays abstract in [ntkAig].  The two counts [Abc_NtkNodeNum] and
    [Abc_NtkCiNum] are read off that part. *)
Record Abc_Ntk_t (Aig : Type) : Type := mkNtk {
  ntkAig : Aig;
  pModel : option (list Z)
}.

Definition set_pModel {Aig} (n : Abc_Ntk_t Aig) (m : option (list Z)) : Abc_Ntk_t Aig :=
  {| ntkAig := ntkAig n; pModel := m |}.

(** [Prove_Params_t], with the fields [Abc_NtkMiterProve] reads and writes.
    The [int] and [sint64] fields are integers; the three multipliers are
    C [float]s and keep an abstract type. *)
Record Prove_Params_t (C_float : Type) : Type := mkParams {
  fUseFraiging : Z;
  fUseRewriting : Z;
  fUseBdds : Z;
  fVerbose : Z;
  nItersMax : Z;
  nMiteringLimitStart : Z;
  nMiteringLimitMulti : C_float;
  nRewritingLimitStart : Z;
  nRewritingLimitMulti : C_float;
  nFraigingLimitStart : Z;
  nFraigingLimitMulti : C_float;
  nMiteringLimitLast : Z;
  nTotalBacktrackLimit : Z;
  nTotalInspectLimit : Z;
  nTotalBacktracksMade : Z;
  nTotalInspectsMade : Z;
  nBddSizeLimit : Z;
  fBddReorder : Z
}.

(** The fields of [Fraig_Params_t] that [Abc_NtkMiterFraig] sets after
    [Fraig_ParamsSetDefault]; the others keep the engine's defaults. *)
Record Fraig_Params_t : Type := mkFraigParams {
  nPatsRand : Z;
  nPatsDyna : Z;
  nBTLimit : Z;
  nSeconds : Z;
  fTryProve : Z;
  fDoSparse : Z;
  fraigVerbose : Z;
  nInspLimit : Z
}.

(** What [Abc_NtkMiterSat] leaves behind: its return value, the network as
    the solver left it (same instance, [pModel] possibly set) and what it
    would store through [pNumConfs] and [pNumInspects]. *)
Record sat_result (Aig : Type) : Type := mkSat {
  sat_ret : Z;
  sat_ntk : Abc_Ntk_t Aig;
  sat_confs : Z;
  sat_insps : Z
}.

(** What [Abc_NtkMiterFraig] returns and stores through its pointers. *)
Record fraig_result (Aig : Type) : Type := mkFraig {
  fr_ntk : Abc_Ntk_t Aig;
  fr_ret : Z;
  fr_fails : Z;
  fr_confs : Z;
  fr_insps : Z
}.

(** ** The external procedures *)

(** [(int)(start * pow(multi, nIter))] and its [sint64] variant are double
    precision computations of libm; the prover only passes the result on. *)
Class Libm (C_float C_double : Type) : Type := {
  pow : C_float -> Z -> C_double;
  mul_int : Z -> C_double -> C_double;
  to_int : C_double -> Z;
  to_sint64 : C_double -> Z
}.

Class Engines (Aig Fman : Type) : Type := {
  Abc_NtkMiterSat : Abc_Ntk_t Aig -> Z -> Z -> sat_result Aig;
  Abc_NtkRewrite : Abc_Ntk_t Aig -> Abc_Ntk_t Aig;
  Abc_NtkRefactor : Abc_Ntk_t Aig -> Abc_Ntk_t Aig;
  Abc_NtkBalance : Abc_Ntk_t Aig -> Abc_Ntk_t Aig;
  Abc_NtkMiterIsConstant : Abc_Ntk_t Aig -> Z;
  Abc_NtkCollapse : Abc_Ntk_t Aig -> Z -> Z -> option (Abc_Ntk_t Aig);
  Abc_NtkNodeNum : Aig -> Z;
  Abc_NtkCiNum : Aig -> Z;
  (* Abc_ObjFanin0(Abc_NtkPo(pNtk,0))->pData == Cudd_ReadLogicZero(pNtk->pManFunc) *)
  po_is_logic_zero : Abc_Ntk_t Aig -> bool;
  Abc_NtkToFraig : Abc_Ntk_t Aig -> Fraig_Params_t -> Fman;
  Fraig_ManProveMiter : Fman -> Fman;
  Fraig_ManCheckMiter : Fman -> Z;
  Abc_NtkFromFraig : Fman -> Abc_Ntk_t Aig -> Abc_Ntk_t Aig;
  Fraig_ManReadModel : Fman -> list Z;
  Fraig_ManReadSatFails : Fman -> Z;
  Fraig_ManReadConflicts : Fman -> Z;
  Fraig_ManReadInspects : Fman -> Z
}.

(** ** The trace of engine calls *)

Inductive transform : Type := Rewrite | Refactor | Balance.

(** One event per call.  [EvSat] keeps the two limits passed, whether the
    call passed counters ([&nSatConfs], [&nSatInspects]) or [NULL], and what
    the solver answered; [EvFraig] likewise; [EvCollapse] keeps the size
    limit, the reorder flag and whether a network came back. *)
Inductive event : Type :=
| EvSat (nConfLimit nInsLimit : Z) (counters : bool) (ret confs insps : Z)
| EvTransform (t : transform)
| EvFraig (nBTLimit nInspLimit : Z) (ret confs insps : Z)
| EvCollapse (nBddSizeLimit fReorder : Z) (built : bool).

(** How the body of the [for] loop is left. *)
Inductive ctrl (S : Type) : Type :=
| Continue (RetValue : Z) (s : S)   (* falls to the end of the body *)
| Break (RetValue : Z) (s : S)      (* break *)
| Return (ret : Z) (s : S).         (* return from the function *)

(** A C condition on an [int] or [sint64]. *)
Definition truthy (z : Z) : bool := negb (z =? 0).

Section Prover.

Context {Aig Fman C_float C_double : Type}.
Context {M : Libm C_float C_double} {E : Engines Aig Fman}.

Local Abbreviation Ntk := (Abc_Ntk_t Aig).
Local Abbreviation Params := (Prove_Params_t C_float).

(** The part of the machine state the prover changes: the live network
    [pNtk], the parameter block behind [pPars] and the trace. *)
Record state : Type := mkState {
  pNtk : Ntk;
  pParams : Params;
  trace : list event
}.

Definition emit (e : event) (s : state) : state :=
  {| pNtk := pNtk s; pParams := pParams s; trace := trace s ++ [e] |}.

Definition with_ntk (n : Ntk) (s : state) : state :=
  {| pNtk := n; pParams := pParams s; trace := trace s |}.

(** [nTotalBacktracksMade += nSatConfs; nTotalInspectsMade += nSatInspects] *)
Definition add_totals (p : Params) (confs insps : Z) : Params :=
  {| fUseFraiging := fUseFraiging p;
     fUseRewriting := fUseRewriting p;
     fUseBdds := fUseBdds p;
     fVerbose := fVerbose p;
     nItersMax := nItersMax p;
     nMiteringLimitStart := nMiteringLimitStart p;
     nMiteringLimitMulti := nMiteringLimitMulti p;
     nRewritingLimitStart := nRewritingLimitStart p;
     nRewritingLimitMulti := nRewritingLimitMulti p;
     nFraigingLimitStart := nFraigingLimitStart p;
     nFraigingLimitMulti := nFraigingLimitMulti p;
     nMiteringLimitLast := nMiteringLimitLast p;
     nTotalBacktrackLimit := nTotalBacktrackLimit p;
     nTotalInspectLimit := nTotalInspectLimit p;
     nTotalBacktracksMade := nTotalBacktracksMade p + confs;
     nTotalInspectsMade := nTotalInspectsMade p + insps;
     nBddSizeLimit := nBddSizeLimit p;
     fBddReorder := fBddReorder p |}.

Definition account (confs insps : Z) (s : state) : state :=
  {| pNtk := pNtk s; pParams := add_totals (pParams s) confs insps; trace := trace s |}.

(** The test of lines 112-113 and 161-162. *)
Definition limit_reached (p : Params) : bool :=
  (truthy (nTotalBacktrackLimit p) && (nTotalBacktracksMade p >=? nTotalBacktrackLimit p))
  || (truthy (nTotalInspectLimit p) && (nTotalInspectsMade p >=? nTotalInspectLimit p)).

(** [nTotalInspectLimit ? nTotalInspectLimit - nTotalInspectsMade : 0] *)
Definition inspect_limit (p : Params) : Z :=
  if truthy (nTotalInspectLimit p)
  then nTotalInspectLimit p - nTotalInspectsMade p
  else 0.

(** [(int)(start * pow(multi, nIter))] and [(sint64)(start * pow(multi, nIter))] *)
Definition int_limit (start : Z) (multi : C_float) (nIter : Z) : Z :=
  to_int (mul_int start (pow multi nIter)).

Definition sint64_limit (start : Z) (multi : C_float) (nIter : Z) : Z :=
  to_sint64 (mul_int start (pow multi nIter)).

(** *** Abc_NtkMiterFraig (lines 226-279) *)

Definition Abc_NtkMiterFraig (ntk : Ntk) (nBTLim nInspLim : Z) : outcome (fraig_result Aig) :=
  let nWords1 := 32 in
  let d := Abc_NtkNodeNum (ntkAig ntk) + Abc_NtkCiNum (ntkAig ntk) in
  if d =? 0 then Fault DivByZero else
  let nWords2 := Z.quot (Z.shiftl 1 27) d in
  let nWordsMin := Z.min nWords1 nWords2 in
  let Params :=
    {| nPatsRand := nWordsMin * 32;
       nPatsDyna := nWordsMin * 32;
       nBTLimit := nBTLim;
       nSeconds := -1;
       fTryProve := 0;
       fDoSparse := 1;
       fraigVerbose := 0;
       nInspLimit := nInspLim |} in
  let pMan := Fraig_ManProveMiter (Abc_NtkToFraig ntk Params) in
  let RetValue := Fraig_ManCheckMiter pMan in
  let pNtkNew := Abc_NtkFromFraig pMan ntk in
  let pNtkNew :=
    if RetValue =? 0
    then set_pModel pNtkNew
           (Some (firstn (Z.to_nat (Abc_NtkCiNum (ntkAig pNtkNew))) (Fraig_ManReadModel pMan)))
    else pNtkNew in
  Ok {| fr_ntk := pNtkNew;
        fr_ret := RetValue;
        fr_fails := Fraig_ManReadSatFails pMan;
        fr_confs := Fraig_ManReadConflicts pMan;
        fr_insps := Fraig_ManReadInspects pMan |}.

(** *** The stages of one iteration *)

(** Lines 100-118: brute-force SAT, then the totals and the global limit. *)
Definition stage_sat (nIter : Z) (s : state) : ctrl state :=
  let p := pParams s in
  let nInspectLimit := inspect_limit p in
  let nConfLimit := sint64_limit (nMiteringLimitStart p) (nMiteringLimitMulti p) nIter in
  let r := Abc_NtkMiterSat (pNtk s) nConfLimit nInspectLimit in
  let s := emit (EvSat nConfLimit nInspectLimit true (sat_ret r) (sat_confs r) (sat_insps r))
                (with_ntk (sat_ntk r) s) in
  let RetValue := sat_ret r in
  if RetValue >=? 0 then Break RetValue s else
  let s := account (sat_confs r) (sat_insps r) s in
  if limit_reached (pParams s) then Return (-1) s else
  Continue RetValue s.

Definition apply_transform (t : transform) (s : state) : state :=
  let n := match t with
           | Rewrite => Abc_NtkRewrite (pNtk s)
           | Refactor => Abc_NtkRefactor (pNtk s)
           | Balance => Abc_NtkBalance (pNtk s)
           end in
  emit (EvTransform t) (with_ntk n s).

(** Lines 125-142: the [while ( 1 )].  One unit of fuel is one pass through
    its body.  [Counter] is a C [int] that is only decremented. *)
Fixpoint rewriting_loop (fuel : nat) (Counter : Z) (s : state) : outcome (Z * state) :=
  match fuel with
  | O => Fault OutOfFuel
  | S fuel' =>
      let s := apply_transform Rewrite s in
      let RetValue := Abc_NtkMiterIsConstant (pNtk s) in
      if RetValue >=? 0 then Ok (RetValue, s) else
      let Counter := Counter - 1 in
      if Counter =? 0 then Ok (RetValue, s) else
      let s := apply_transform Refactor s in
      let RetValue := Abc_NtkMiterIsConstant (pNtk s) in
      if RetValue >=? 0 then Ok (RetValue, s) else
      let Counter := Counter - 1 in
      if Counter =? 0 then Ok (RetValue, s) else
      let s := apply_transform Balance s in
      let RetValue := Abc_NtkMiterIsConstant (pNtk s) in
      if RetValue >=? 0 then Ok (RetValue, s) else
      let Counter := Counter - 1 in
      if Counter =? 0 then Ok (RetValue, s) else
      rewriting_loop fuel' Counter s
  end.

(** Lines 120-144. *)
Definition stage_rewriting (fuel : nat) (nIter : Z) (RetValue : Z) (s : state)
  : outcome (Z * state) :=
  let p := pParams s in
  if truthy (fUseRewriting p) then
    let Counter := int_limit (nRewritingLimitStart p) (nRewritingLimitMulti p) nIter in
    rewriting_loop fuel Counter s
  else Ok (RetValue, s).

(** Lines 146-168. *)
Definition stage_fraiging (nIter : Z) (RetValue : Z) (s : state) : outcome (ctrl state) :=
  let p := pParams s in
  if truthy (fUseFraiging p) then
    let nInspectLimit := inspect_limit p in
    let nBTLim := int_limit (nFraigingLimitStart p) (nFraigingLimitMulti p) nIter in
    r <- Abc_NtkMiterFraig (pNtk s) nBTLim nInspectLimit ;;
    let s := emit (EvFraig nBTLim nInspectLimit (fr_ret r) (fr_confs r) (fr_insps r))
                  (with_ntk (fr_ntk r) s) in
    let RetValue := fr_ret r in
    if RetValue >=? 0 then Ok (Break RetValue s) else
    let s := account (fr_confs r) (fr_insps r) s in
    if limit_reached (pParams s) then Ok (Return (-1) s) else
    Ok (Continue RetValue s)
  else Ok (Continue RetValue s).

(** The body of the [for] loop, lines 91-170. *)
Definition iteration (fuel : nat) (nIter : Z) (s : state) : outcome (ctrl state) :=
  match stage_sat nIter s with
  | Continue RetValue s1 =>
      '(RetValue, s2) <- stage_rewriting fuel nIter RetValue s1 ;;
      stage_fraiging nIter RetValue s2
  | c => Ok c
  end.

(** The [for] loop, lines 90-170, with [n] iterations left to go
    ([n = nItersMax - nIter], none if that is negative).  [RetValue] is
    [None] as long as nothing was assigned to the local variable.  The
    result is [inl] when the function returned from inside the loop and
    [inr] when the loop was left. *)
Fixpoint for_loop (fuel : nat) (n : nat) (nIter : Z) (RetValue : option Z) (s : state)
  : outcome (Z * state + option Z * state) :=
  match n with
  | O => Ok (inr (RetValue, s))
  | S n' =>
      c <- iteration fuel nIter s ;;
      match c with
      | Continue r s' => for_loop fuel n' (nIter + 1) (Some r) s'
      | Break r s' => Ok (inr (Some r, s'))
      | Return r s' => Ok (inl (r, s'))
      end
  end.

(** *** After the loop *)

(** Lines 173-190, entered with [RetValue < 0 && fUseBdds]. *)
Definition stage_bdd (RetValue : Z) (s : state) : Z * state :=
  let p := pParams s in
  if (RetValue <? 0) && truthy (fUseBdds p) then
    match Abc_NtkCollapse (pNtk s) (nBddSizeLimit p) (fBddReorder p) with
    | Some n =>
        let s := emit (EvCollapse (nBddSizeLimit p) (fBddReorder p) true) (with_ntk n s) in
        let RetValue :=
          if (Abc_NtkNodeNum (ntkAig n) =? 1) && po_is_logic_zero n then 1 else 0 in
        (RetValue, s)
    | None =>
        (RetValue, emit (EvCollapse (nBddSizeLimit p) (fBddReorder p) false) s)
    end
  else (RetValue, s).

(** Lines 192-203. *)
Definition stage_last_sat (RetValue : Z) (s : state) : Z * state :=
  let p := pParams s in
  if RetValue <? 0 then
    let nInspectLimit := inspect_limit p in
    let r := Abc_NtkMiterSat (pNtk s) (nMiteringLimitLast p) nInspectLimit in
    (sat_ret r,
     emit (EvSat (nMiteringLimitLast p) nInspectLimit false
                 (sat_ret r) (sat_confs r) (sat_insps r))
          (with_ntk (sat_ntk r) s))
  else (RetValue, s).

(** Lines 205-210: [ALLOC] and [memset] of [Abc_NtkCiNum(pNtk)] zeros. *)
Definition assign_model (RetValue : Z) (s : state) : Z * state :=
  match pModel (pNtk s) with
  | None =>
      if RetValue =? 0 then
        (RetValue,
         with_ntk (set_pModel (pNtk s)
                     (Some (repeat 0 (Z.to_nat (Abc_NtkCiNum (ntkAig (pNtk s))))))) s)
      else (RetValue, s)
  | Some _ => (RetValue, s)
  end.

(** Lines 172-212.  The first thing done is to read [RetValue]. *)
Definition after_loop (RetValue : option Z) (s : state) : outcome (Z * state) :=
  match RetValue with
  | None => Fault UninitRead
  | Some r =>
      let '(r, s) := stage_bdd r s in
      let '(r, s) := stage_last_sat r s in
      Ok (assign_model r s)
  end.

(** The function from line 90 on, entered at iteration [nIter] with [n]
    iterations to go. *)
Definition prove_from (fuel : nat) (n : nat) (nIter : Z) (RetValue : option Z) (s : state)
  : outcome (Z * state) :=
  x <- for_loop fuel n nIter RetValue s ;;
  match x with
  | inl (r, s') => Ok (r, s')
  | inr (rv, s') => after_loop rv s'
  end.

(** Lines 79-87: SAT only, without iteration. *)
Definition sat_only (s : state) : Z * state :=
  let p := pParams s in
  let r := Abc_NtkMiterSat (pNtk s) (nMiteringLimitLast p) 0 in
  (sat_ret r,
   emit (EvSat (nMiteringLimitLast p) 0 false (sat_ret r) (sat_confs r) (sat_insps r))
        (with_ntk (sat_ntk r) s)).

(** [Abc_NtkMiterProve( ppNtk, pPars )]: the value returned, and in the
    state the network stored back into [*ppNtk], the parameter block and
    the calls made.  The two [assert]s on entry are the caller's
    obligations, the printing under [fVerbose] has no effect on any of
    this, and [Abc_NtkDelete] frees a network that is no longer looked at;
    none of them is part of the model. *)
Definition Abc_NtkMiterProve (fuel : nat) (ntk : Ntk) (pPars : Params) : outcome (Z * state) :=
  let s := {| pNtk := ntk; pParams := pPars; trace := [] |} in
  if negb (truthy (fUseRewriting pPars)) && negb (truthy (fUseFraiging pPars))
  then Ok (sat_only s)
  else prove_from fuel (Z.to_nat (nItersMax pPars)) 0 None s.

End Prover.

(** ** What the rewriting stage is expected to do *)

(** The rotation rewrite, refactor, balance: the first [k] transformations
    of it, starting with [t]. *)
Definition next_transform (t : transform) : transform :=
  match t with
  | Rewrite => Refactor
  | Refactor => Balance
  | Balance => Rewrite
  end.

Fixpoint rotation (k : nat) (t : transform) : list transform :=
  match k with
  | O => []
  | S k' => t :: rotation k' (next_transform t)
  end.

Section Reference.

Context {Aig Fman C_float : Type} {E : Engines Aig Fman}.

Definition transform_ntk (t : transform) (n : Abc_Ntk_t Aig) : Abc_Ntk_t Aig :=
  match t with
  | Rewrite => Abc_NtkRewrite n
  | Refactor => Abc_NtkRefactor n
  | Balance => Abc_NtkBalance n
  end.

(** The network after a list of transformations, applied left to right. *)
Definition transformed (ts : list transform) (n : Abc_Ntk_t Aig) : Abc_Ntk_t Aig :=
  fold_left (fun n t => transform_ntk t n) ts n.

(** The state after the transformations [ts], one after the other. *)
Definition after_transforms (ts : list transform) (s : @state Aig C_float)
  : @state Aig C_float :=
  {| pNtk := transformed ts (pNtk s);
     pParams := pParams s;
     trace := trace s ++ map EvTransform ts |}.

(** What the engines' documentation promises and the prover relies on. *)

(** The three values of the return convention: -1 timed out, 0 SAT,
    1 UNSAT. *)
Definition tri_state (r : Z) : Prop := r = -1 \/ r = 0 \/ r = 1.

Definition engines_tri_state : Prop :=
  (forall n l i, tri_state (sat_ret (Abc_NtkMiterSat n l i))) /\
  (forall n, tri_state (Abc_NtkMiterIsConstant n)) /\
  (forall m, tri_state (Fraig_ManCheckMiter m)).

End Reference.

(** ** What a trace charges to the running totals *)

(** The conflicts and inspects of the calls that passed counters and came
    back without a verdict. *)
Definition charged_confs (e : event) : Z :=
  match e with
  | EvSat _ _ true ret confs _ => if ret <? 0 then confs else 0
  | EvFraig _ _ ret confs _ => if ret <? 0 then confs else 0
  | _ => 0
  end.

Definition charged_insps (e : event) : Z :=
  match e with
  | EvSat _ _ true ret _ insps => if ret <? 0 then insps else 0
  | EvFraig _ _ ret _ insps => if ret <? 0 then insps else 0
  | _ => 0
  end.

Definition total_confs (tr : list event) : Z :=
  fold_right (fun e acc => charged_confs e + acc) 0 tr.

Definition total_insps (tr : list event) : Z :=
  fold_right (fun e acc => charged_insps e + acc) 0 tr.

Section Accounting.

Context {Aig C_float : Type}.

(** The totals of [s] are those of the parameter block [p0] the call began
    with plus what the trace of [s] charges. *)
Definition accounted (p0 : Prove_Params_t C_float) (s : @state Aig C_float) : Prop :=
  pParams s = add_totals p0 (total_confs (trace s)) (total_insps (trace s)).

Definition ctrl_state (c : ctrl (@state Aig C_float)) : @state Aig C_float :=
  match c with
  | Continue _ s | Break _ s | Return _ s => s
  end.

End Accounting.

(** ** A small concrete instance

    Networks are numbers: [n] is how many transformations away the miter
    is from a constant 1.  It serves to run the prover on concrete inputs. *)
Module Toy.

#[global] Instance libm : Libm Z Z :=
  {| pow := fun m i => m ^ i;
     mul_int := Z.mul;
     to_int := fun x => x;
     to_sint64 := fun x => x |}.

(* The solver finds a model at network 100, refutes any network once it
   is given 1000 conflicts, and gives up otherwise; every call costs 5
   conflicts and 7 inspects. *)
Definition sat (n : Abc_Ntk_t Z) (nConfLimit nInsLimit : Z) : sat_result Z :=
  if ntkAig n =? 100 then
    {| sat_ret := 0; sat_ntk := set_pModel n (Some [1; 1]); sat_confs := 5; sat_insps := 7 |}
  else if nConfLimit >=? 1000 then
    {| sat_ret := 1; sat_ntk := n; sat_confs := 5; sat_insps := 7 |}
  else
    {| sat_ret := -1; sat_ntk := n; sat_confs := 5; sat_insps := 7 |}.

Definition shrink (n : Abc_Ntk_t Z) : Abc_Ntk_t Z :=
  {| ntkAig := ntkAig n - 1; pModel := pModel n |}.

#[global] Instance engines : Engines Z Z :=
  {| Abc_NtkMiterSat := sat;
     Abc_NtkRewrite := shrink;
     Abc_NtkRefactor := shrink;
     Abc_NtkBalance := shrink;
     Abc_NtkMiterIsConstant := fun n => if ntkAig n <=? 0 then 0 else -1;
     Abc_NtkCollapse := fun n lim _ => if ntkAig n <=? lim then Some n else None;
     Abc_NtkNodeNum := fun a => a;
     Abc_NtkCiNum := fun _ => 2;
     po_is_logic_zero := fun n => ntkAig n =? 1;
     Abc_NtkToFraig := fun n _ => ntkAig n;
     Fraig_ManProveMiter := fun m => m;
     Fraig_ManCheckMiter := fun m => if m <=? 0 then 0 else -1;
     Abc_NtkFromFraig := fun _ n => n;
     Fraig_ManReadModel := fun _ => [0; 0];
     Fraig_ManReadSatFails := fun _ => 0;
     Fraig_ManReadConflicts := fun _ => 3;
     Fraig_ManReadInspects := fun _ => 4 |}.

Definition ntk (n : Z) : Abc_Ntk_t Z := {| ntkAig := n; pModel := None |}.

(* Mitering starts at 10 conflicts and doubles, rewriting starts at
   [rewStart] steps, fraiging at 4 backtracks; 50 conflicts at last. *)
Definition params (useF useR useB iters rewStart btLimit : Z) : Prove_Params_t Z :=
  {| fUseFraiging := useF;
     fUseRewriting := useR;
     fUseBdds := useB;
     fVerbose := 0;
     nItersMax := iters;
     nMiteringLimitStart := 10;
     nMiteringLimitMulti := 2;
     nRewritingLimitStart := rewStart;
     nRewritingLimitMulti := 1;
     nFraigingLimitStart := 4;
     nFraigingLimitMulti := 2;
     nMiteringLimitLast := 50;
     nTotalBacktrackLimit := btLimit;
     nTotalInspectLimit := 0;
     nTotalBacktracksMade := 0;
     nTotalInspectsMade := 0;
     nBddSizeLimit := 10;
     fBddReorder := 1 |}.

(* The same parameters with a global limit on the inspects. *)
Definition with_inspect_limit (L : Z) (p : Prove_Params_t Z) : Prove_Params_t Z :=
  {| fUseFraiging := fUseFraiging p;
     fUseRewriting := fUseRewriting p;
     fUseBdds := fUseBdds p;
     fVerbose := fVerbose p;
     nItersMax := nItersMax p;
     nMiteringLimitStart := nMiteringLimitStart p;
     nMiteringLimitMulti := nMiteringLimitMulti p;
     nRewritingLimitStart := nRewritingLimitStart p;
     nRewritingLimitMulti := nRewritingLimitMulti p;
     nFraigingLimitStart := nFraigingLimitStart p;
     nFraigingLimitMulti := nFraigingLimitMulti p;
     nMiteringLimitLast := nMiteringLimitLast p;
     nTotalBacktrackLimit := nTotalBacktrackLimit p;
     nTotalInspectLimit := L;
     nTotalBacktracksMade := nTotalBacktracksMade p;
     nTotalInspectsMade := nTotalInspectsMade p;
     nBddSizeLimit := nBddSizeLimit p;
     fBddReorder := fBddReorder p |}.

End Toy.

(** ** The calls of an iteration, by name *)

Unset Implicit Arguments.

Section Calls.

Context {Aig Fman C_float C_double : Type}.
Context {M : Libm C_float C_double} {E : Engines Aig Fman}.

(** The limits of iteration [nIter] under the parameters [p]. *)
Definition sat_limit_at (p : Prove_Params_t C_float) (nIter : Z) : Z :=
  sint64_limit (nMiteringLimitStart p) (nMiteringLimitMulti p) nIter.

Definition rewriting_limit_at (p : Prove_Params_t C_float) (nIter : Z) : Z :=
  int_limit (nRewritingLimitStart p) (nRewritingLimitMulti p) nIter.

Definition fraig_limit_at (p : Prove_Params_t C_float) (nIter : Z) : Z :=
  int_limit (nFraigingLimitStart p) (nFraigingLimitMulti p) nIter.

(** The SAT call of line 103 from the state [s], its event, and the state
    right after it (before the totals are touched). *)
Definition sat_call (nIter : Z) (s : @state Aig C_float) : sat_result Aig :=
  Abc_NtkMiterSat (pNtk s) (sat_limit_at (pParams s) nIter) (inspect_limit (pParams s)).

Definition sat_event (nIter : Z) (s : @state Aig C_float) : event :=
  EvSat (sat_limit_at (pParams s) nIter) (inspect_limit (pParams s)) true
        (sat_ret (sat_call nIter s)) (sat_confs (sat_call nIter s))
        (sat_insps (sat_call nIter s)).

Definition sat_state (nIter : Z) (s : @state Aig C_float) : @state Aig C_float :=
  emit (sat_event nIter s) (with_ntk (sat_ntk (sat_call nIter s)) s).

(** The fraiging call of line 151, the event of a call that came back with
    [f], and the state right after it. *)
Definition fraig_call (nIter : Z) (s : @state Aig C_float) : outcome (fraig_result Aig) :=
  Abc_NtkMiterFraig (pNtk s) (fraig_limit_at (pParams s) nIter) (inspect_limit (pParams s)).

Definition fraig_event (nIter : Z) (s : @state Aig C_float) (f : fraig_result Aig) : event :=
  EvFraig (fraig_limit_at (pParams s) nIter) (inspect_limit (pParams s))
          (fr_ret f) (fr_confs f) (fr_insps f).

Definition fraig_state (nIter : Z) (s : @state Aig C_float) (f : fraig_result Aig)
  : @state Aig C_float :=
  emit (fraig_event nIter s f) (with_ntk (fr_ntk f) s).

(** The last SAT call, of line 201. *)
Definition last_sat_call (s : @state Aig C_float) : sat_result Aig :=
  Abc_NtkMiterSat (pNtk s) (nMiteringLimitLast (pParams s)) (inspect_limit (pParams s)).

Definition last_sat_event (s : @state Aig C_float) : event :=
  EvSat (nMiteringLimitLast (pParams s)) (inspect_limit (pParams s)) false
        (sat_ret (last_sat_call s)) (sat_confs (last_sat_call s))
        (sat_insps (last_sat_call s)).

(** The ways through the rewriting block: skipped, or left after [k]
    steps of the rotation with the constant test of the network reached. *)
Inductive rewriting_path (s1 : @state Aig C_float) (rv1 : Z)
  : Z -> @state Aig C_float -> Prop :=
| Rw_off :
    fUseRewriting (pParams s1) = 0 ->
    rewriting_path s1 rv1 rv1 s1
| Rw_on (k : nat) :
    fUseRewriting (pParams s1) <> 0 ->
    (1 <= k)%nat ->
    rewriting_path s1 rv1
      (Abc_NtkMiterIsConstant (pNtk (after_transforms (rotation k Rewrite) s1)))
      (after_transforms (rotation k Rewrite) s1).

(** The ways through the fraiging block. *)
Inductive fraiging_path (nIter : Z) (s2 : @state Aig C_float) (rv2 : Z)
  : ctrl (@state Aig C_float) -> Prop :=
| Fr_off :
    fUseFraiging (pParams s2) = 0 ->
    fraiging_path nIter s2 rv2 (Continue rv2 s2)
| Fr_decided (f : fraig_result Aig) :
    fUseFraiging (pParams s2) <> 0 ->
    fraig_call nIter s2 = Ok f ->
    0 <= fr_ret f ->
    fraiging_path nIter s2 rv2 (Break (fr_ret f) (fraig_state nIter s2 f))
| Fr_limit (f : fraig_result Aig) :
    fUseFraiging (pParams s2) <> 0 ->
    fraig_call nIter s2 = Ok f ->
    fr_ret f < 0 ->
    limit_reached (add_totals (pParams s2) (fr_confs f) (fr_insps f)) = true ->
    fraiging_path nIter s2 rv2
      (Return (-1) (account (fr_confs f) (fr_insps f) (fraig_state nIter s2 f)))
| Fr_undecided (f : fraig_result Aig) :
    fUseFraiging (pParams s2) <> 0 ->
    fraig_call nIter s2 = Ok f ->
    fr_ret f < 0 ->
    limit_reached (add_totals (pParams s2) (fr_confs f) (fr_insps f)) = false ->
    fraiging_path nIter s2 rv2
      (Continue (fr_ret f) (account (fr_confs f) (fr_insps f) (fraig_state nIter s2 f))).

(** The ways through the body of the [for] loop. *)
Inductive iteration_path (nIter : Z) (s : @state Aig C_float)
  : ctrl (@state Aig C_float) -> Prop :=
| It_sat_decided :
    0 <= sat_ret (sat_call nIter s) ->
    iteration_path nIter s (Break (sat_ret (sat_call nIter s)) (sat_state nIter s))
| It_sat_limit :
    sat_ret (sat_call nIter s) < 0 ->
    limit_reached (add_totals (pParams s) (sat_confs (sat_call nIter s))
                              (sat_insps (sat_call nIter s))) = true ->
    iteration_path nIter s
      (Return (-1) (account (sat_confs (sat_call nIter s)) (sat_insps (sat_call nIter s))
                            (sat_state nIter s)))
| It_go_on (rv2 : Z) (s2 : @state Aig C_float) (c : ctrl (@state Aig C_float)) :
    sat_ret (sat_call nIter s) < 0 ->
    limit_reached (add_totals (pParams s) (sat_confs (sat_call nIter s))
                              (sat_insps (sat_call nIter s))) = false ->
    rewriting_path
      (account (sat_confs (sat_call nIter s)) (sat_insps (sat_call nIter s))
               (sat_state nIter s))
      (sat_ret (sat_call nIter s)) rv2 s2 ->
    fraiging_path nIter s2 rv2 c ->
    iteration_path nIter s c.

Definition last_sat_state (s : @state Aig C_float) : @state Aig C_float :=
  emit (last_sat_event s) (with_ntk (sat_ntk (last_sat_call s)) s).

(** The collapse of line 181 and its event. *)
Definition collapse_call (s : @state Aig C_float) : option (Abc_Ntk_t Aig) :=
  Abc_NtkCollapse (pNtk s) (nBddSizeLimit (pParams s)) (fBddReorder (pParams s)).

Definition collapse_event (s : @state Aig C_float) (built : bool) : event :=
  EvCollapse (nBddSizeLimit (pParams s)) (fBddReorder (pParams s)) built.

(** The ways from the end of the loop, left with [RetValue = rv], to the
    assignment of the model: the value and the state it is entered with. *)
Inductive after_loop_path (rv : Z) (s : @state Aig C_float)
  : Z -> @state Aig C_float -> Prop :=
| Al_decided :
    0 <= rv ->
    after_loop_path rv s rv s
| Al_bdd (n : Abc_Ntk_t Aig) :
    rv < 0 ->
    fUseBdds (pParams s) <> 0 ->
    collapse_call s = Some n ->
    after_loop_path rv s
      (if (Abc_NtkNodeNum (ntkAig n) =? 1) && po_is_logic_zero n then 1 else 0)
      (emit (collapse_event s true) (with_ntk n s))
| Al_sat :
    rv < 0 ->
    fUseBdds (pParams s) = 0 ->
    after_loop_path rv s (sat_ret (last_sat_call s)) (last_sat_state s)
| Al_bdd_sat :
    rv < 0 ->
    fUseBdds (pParams s) <> 0 ->
    collapse_call s = None ->
    after_loop_path rv s
      (sat_ret (last_sat_call (emit (collapse_event s false) s)))
      (last_sat_state (emit (collapse_event s false) s)).

(** The engines report no negative consumption. *)
Definition engines_nonneg : Prop :=
  (forall n l i, 0 <= sat_confs (Abc_NtkMiterSat n l i) /\
                 0 <= sat_insps (Abc_NtkMiterSat n l i)) /\
  (forall m, 0 <= Fraig_ManReadConflicts m /\ 0 <= Fraig_ManReadInspects m).

End Calls.

(** ** Reading a trace *)

(** The events of the loop: SAT calls that pass counters, transformations
    and fraiging calls. *)
Definition loop_event (e : event) : Prop :=
  match e with
  | EvSat _ _ counters _ _ _ => counters = true
  | EvTransform _ => True
  | EvFraig _ _ _ _ _ => True
  | EvCollapse _ _ _ => False
  end.

(** The conflict limits of the SAT calls of the loop, in order, and the
    backtrack limits of the fraiging calls. *)
Definition sat_limits (tr : list event) : list Z :=
  flat_map (fun e => match e with
                     | EvSat l _ true _ _ _ => [l]
                     | _ => []
                     end) tr.

Definition fraig_limits (tr : list event) : list Z :=
  flat_map (fun e => match e with
                     | EvFraig l _ _ _ _ => [l]
                     | _ => []
                     end) tr.

(** The inspect limit a call was given, if it is a SAT or fraiging call. *)
Definition insp_limit_of (e : event) : option Z :=
  match e with
  | EvSat _ i _ _ _ _ => Some i
  | EvFraig _ i _ _ _ => Some i
  | _ => None
  end.

(** How a trace ends after the events of the loop, with the value [ret]
    returned and with [reached] telling whether a global limit is reached
    in the parameters returned: nothing more (a verdict of the loop, or a
    limit reached in it), a collapse that built a network, the last SAT
    call, or a collapse that built none and then the last SAT call. *)
Definition tail_shape (reached : bool) (ret : Z) (tail : list event) : Prop :=
  (tail = [] /\ (0 <= ret \/ (ret = -1 /\ reached = true))) \/
  (exists l f, tail = [EvCollapse l f true] /\ (ret = 0 \/ ret = 1)) \/
  (exists l i c k, tail = [EvSat l i false ret c k]) \/
  (exists l f l' i c k, tail = [EvCollapse l f false; EvSat l' i false ret c k]).

(** The engines a parameter block switches on. *)
Definition enabled_event {C_float : Type} (p : Prove_Params_t C_float) (e : event) : Prop :=
  match e with
  | EvSat _ _ _ _ _ _ => True
  | EvTransform _ => fUseRewriting p <> 0
  | EvFraig _ _ _ _ _ => fUseFraiging p <> 0
  | EvCollapse _ _ _ => fUseBdds p <> 0
  end.

(** With a global inspect limit [L] and [made] inspects on the account when
    the trace begins: every SAT and fraiging call of the trace is given
    what is left of [L] at that point, and something is left. *)
Fixpoint inspect_budget (L made : Z) (tr : list event) : Prop :=
  match tr with
  | [] => True
  | e :: tr' =>
      match insp_limit_of e with
      | Some i => i = L - made /\ 0 < i
      | None => True
      end /\
      inspect_budget L (made + charged_insps e) tr'
  end.

Section Schedule.

Context {C_float C_double : Type} {M : Libm C_float C_double}.

(** The SAT calls of the loop in [tr] were given the conflict limits of
    iterations 0 to [m - 1] under [p], in that order, and the fraiging
    calls the backtrack limits of iterations 0 to [m' - 1]. *)
Definition on_schedule (p : Prove_Params_t C_float) (m m' : nat) (tr : list event) : Prop :=
  sat_limits tr = map (fun i => sat_limit_at p (Z.of_nat i)) (seq 0 m) /\
  fraig_limits tr = map (fun i => fraig_limit_at p (Z.of_nat i)) (seq 0 m').

End Schedule.

(** [nWordsMin] of [Abc_NtkMiterFraig] for [d] nodes and inputs. *)
Definition fraig_words (d : Z) : Z := Z.min 32 (Z.quot (Z.shiftl 1 27) d).

Section FraigManager.

Context {Aig Fman : Type} {E : Engines Aig Fman}.

(** The parameter block [Abc_NtkMiterFraig] builds at lines 238-251 and the
    manager it gets from it at lines 254-255. *)
Definition fraig_params (n : Abc_Ntk_t Aig) (nBTLim nInspLim : Z) : Fraig_Params_t :=
  let w := fraig_words (Abc_NtkNodeNum (ntkAig n) + Abc_NtkCiNum (ntkAig n)) in
  {| nPatsRand := w * 32;
     nPatsDyna := w * 32;
     nBTLimit := nBTLim;
     nSeconds := -1;
     fTryProve := 0;
     fDoSparse := 1;
     fraigVerbose := 0;
     nInspLimit := nInspLim |}.

Definition fraig_man (n : Abc_Ntk_t Aig) (nBTLim nInspLim : Z) : Fman :=
  Fraig_ManProveMiter (Abc_NtkToFraig n (fraig_params n nBTLim nInspLim)).

End FraigManager.

(** ** The range of the 64-bit totals *)

(** The values of a [sint64].  The totals are added with [+=] and the
    inspect limit is a difference of two of them; outside this range the
    C arithmetic is not that of the integers. *)
Definition in_sint64 (z : Z) : Prop := - 2 ^ 63 <= z <= 2 ^ 63 - 1.

(** ** A solver that keeps its model to itself

    The concrete instance with another SAT solver: it answers 0 (SAT) at
    once and stores nothing in the network. *)
Module Bare.

Definition sat (n : Abc_Ntk_t Z) (nConfLimit nInsLimit : Z) : sat_result Z :=
  {| sat_ret := 0; sat_ntk := n; sat_confs := 0; sat_insps := 0 |}.

Definition engines : Engines Z Z :=
  {| Abc_NtkMiterSat := sat;
     Abc_NtkRewrite := Toy.shrink;
     Abc_NtkRefactor := Toy.shrink;
     Abc_NtkBalance := Toy.shrink;
     Abc_NtkMiterIsConstant := fun n => if ntkAig n <=? 0 then 0 else -1;
     Abc_NtkCollapse := fun n lim _ => if ntkAig n <=? lim then Some n else None;
     Abc_NtkNodeNum := fun a => a;
     Abc_NtkCiNum := fun _ => 2;
     po_is_logic_zero := fun n => ntkAig n =? 1;
     Abc_NtkToFraig := fun n _ => ntkAig n;
     Fraig_ManProveMiter := fun m => m;
     Fraig_ManCheckMiter := fun m => if m <=? 0 then 0 else -1;
     Abc_NtkFromFraig := fun _ n => n;
     Fraig_ManReadModel := fun _ => [0; 0];
     Fraig_ManReadSatFails := fun _ => 0;
     Fraig_ManReadConflicts := fun _ => 3;
     Fraig_ManReadInspects := fun _ => 4 |}.

End Bare.

(** ** The limits in double precision

    [(int)(start * pow(multi, nIter))] with the arithmetic of IEEE 754
    binary64 as the standard library specifies it ([spec_float] with a
    mantissa of 53 bits). *)
Module Binary64.

Definition prec : Z := 53.
Definition emax : Z := 1024.

(** The conversion of an [int] to [double], which is exact, and of a value
    such as 1.5 given as an integer mantissa and a binary exponent. *)
Definition of_Z (z : Z) : spec_float := binary_normalize prec emax z 0 false.


(** [pow] is libm's and not part of the sources.  It is taken as the
    correctly rounded power: for a finite [x = m * 2^e] and [n > 0] the
    exact value [m^n * 2^(e*n)] rounded once to nearest, ties to even;
    [pow(x, 0)] is 1.  The prover only passes [n = nIter >= 0]. *)
Definition power_pos (x : spec_float) (n : Z) : spec_float :=
  match x with
  | S754_finite s m e => binary_normalize prec emax (cond_Zopp s (Zpos m) ^ n) (e * n) false
  | S754_zero s => S754_zero (s && Z.odd n)
  | S754_infinity s => S754_infinity (s && Z.odd n)
  | S754_nan => S754_nan
  end.

Definition power (x : spec_float) (n : Z) : spec_float :=
  if n =? 0 then of_Z 1
  else if n <? 0 then SFdiv prec emax (of_Z 1) (power_pos x (- n))
  else power_pos x n.

(** [start * d] with [start] converted to [double]. *)
Definition times (start : Z) (d : spec_float) : spec_float :=
  SFmul prec emax (of_Z start) d.

(** The integer part of the magnitude [m * 2^e], and a finite double cut
    to an integer toward zero. *)
Definition magnitude (m : positive) (e : Z) : Z :=
  if 0 <=? e then Zpos m * 2 ^ e else Zpos m / 2 ^ (- e).

Definition truncated (d : spec_float) : option Z :=
  match d with
  | S754_zero _ => Some 0
  | S754_finite s m e => Some (cond_Zopp s (magnitude m e))
  | S754_infinity _ => None
  | S754_nan => None
  end.

(** The cast to a signed integer type of [w + 1] bits.  C leaves the cast
    of a NaN, an infinity or a value outside the type undefined; the
    conversion instruction of x86-64 then returns the least value of the
    type, and so does the model. *)
Definition cast (w : Z) (d : spec_float) : Z :=
  match truncated d with
  | Some t => if (- 2 ^ w <=? t) && (t <? 2 ^ w) then t else - 2 ^ w
  | None => - 2 ^ w
  end.

Definition libm : Libm spec_float spec_float :=
  {| pow := power;
     mul_int := times;
     to_int := cast 31;
     to_sint64 := cast 63 |}.


End Binary64.

Set Implicit Arguments.

(** * Properties *)

Unset Implicit Arguments.

Lemma truthy_nonzero (z : Z) : z <> 0 -> truthy z = true.
Proof. unfold truthy; intros H; apply Z.eqb_neq in H; now rewrite H. Qed.

Lemma truthy_zero (z : Z) : z = 0 -> truthy z = false.
Proof. intros ->; reflexivity. Qed.

Lemma bind_Ok {A B : Type} (m : outcome A) (k : A -> outcome B) (b : B) :
  bind m k = Ok b -> exists a, m = Ok a /\ k a = Ok b.
Proof. destruct m as [a|f]; simpl; [eauto | discriminate]. Qed.

Lemma bind_Fault {A B : Type} (m : outcome A) (k : A -> outcome B) (f : fault) :
  bind m k = Fault f -> m = Fault f \/ exists a, m = Ok a /\ k a = Fault f.
Proof. destruct m as [a|g]; simpl; [eauto | intros [= ->]; now left]. Qed.

Create Rewrite HintDb zbool.
#[local] Hint Rewrite Z.geb_leb Z.ltb_lt Z.leb_le Z.eqb_eq Z.eqb_neq
  Z.ltb_ge Z.leb_gt andb_true_iff orb_true_iff negb_true_iff : zbool.

Ltac zbool := autorewrite with zbool in *.

Ltac unstate := unfold emit, with_ntk, account; cbn [pNtk pParams trace].

Section Properties.

Context {Aig Fman C_float C_double : Type}.
Context {M : Libm C_float C_double} {E : Engines Aig Fman}.

Local Abbreviation Ntk := (Abc_Ntk_t Aig).
Local Abbreviation Params := (Prove_Params_t C_float).
Local Abbreviation State := (@state Aig C_float).

Implicit Types (s : State) (p : Params) (n : Ntk).

(** ** SAT only *)

(** C9. With rewriting and fraiging both off the call is one SAT attempt
    with [nMiteringLimitLast] and no inspect limit; its return value is the
    result, the network is the one the solver worked on, the parameters
    are untouched and nothing else is called. *)
Theorem sat_only_mode (fuel : nat) n p :
  fUseRewriting p = 0 ->
  fUseFraiging p = 0 ->
  let r := Abc_NtkMiterSat n (nMiteringLimitLast p) 0 in
  Abc_NtkMiterProve fuel n p =
  Ok (sat_ret r,
      {| pNtk := sat_ntk r;
         pParams := p;
         trace := [EvSat (nMiteringLimitLast p) 0 false
                         (sat_ret r) (sat_confs r) (sat_insps r)] |}).
Proof.
  intros HR HF r. unfold Abc_NtkMiterProve.
  rewrite (truthy_zero _ HR), (truthy_zero _ HF). reflexivity.
Qed.

(** ** The BDD fallback *)

Lemma stage_bdd_none (rv : Z) s :
  rv < 0 ->
  fUseBdds (pParams s) <> 0 ->
  Abc_NtkCollapse (pNtk s) (nBddSizeLimit (pParams s)) (fBddReorder (pParams s)) = None ->
  stage_bdd rv s =
  (rv, emit (EvCollapse (nBddSizeLimit (pParams s)) (fBddReorder (pParams s)) false) s).
Proof.
  intros Hrv HB HC. unfold stage_bdd.
  apply Z.ltb_lt in Hrv. rewrite Hrv, (truthy_nonzero _ HB), HC. reflexivity.
Qed.

Lemma stage_bdd_some (rv : Z) s n :
  rv < 0 ->
  fUseBdds (pParams s) <> 0 ->
  Abc_NtkCollapse (pNtk s) (nBddSizeLimit (pParams s)) (fBddReorder (pParams s)) = Some n ->
  stage_bdd rv s =
  (if (Abc_NtkNodeNum (ntkAig n) =? 1) && po_is_logic_zero n then 1 else 0,
   emit (EvCollapse (nBddSizeLimit (pParams s)) (fBddReorder (pParams s)) true)
        (with_ntk n s)).
Proof.
  intros Hrv HB HC. unfold stage_bdd.
  apply Z.ltb_lt in Hrv. rewrite Hrv, (truthy_nonzero _ HB), HC. reflexivity.
Qed.

Lemma stage_last_sat_skipped (rv : Z) s : 0 <= rv -> stage_last_sat rv s = (rv, s).
Proof.
  intros H. unfold stage_last_sat.
  destruct (rv <? 0) eqn:L; [apply Z.ltb_lt in L; lia | reflexivity].
Qed.

(** C8. When [Abc_NtkCollapse] returns no network the verdict stays
    undecided and the network stays the one that was live; the call goes
    on to the last SAT attempt, made on that same network with
    [nMiteringLimitLast]. *)
Theorem bdd_limit_exceeded (rv : Z) s :
  rv < 0 ->
  fUseBdds (pParams s) <> 0 ->
  Abc_NtkCollapse (pNtk s) (nBddSizeLimit (pParams s)) (fBddReorder (pParams s)) = None ->
  let p := pParams s in
  let r := Abc_NtkMiterSat (pNtk s) (nMiteringLimitLast p) (inspect_limit p) in
  (fst (stage_bdd rv s) = rv /\ pNtk (snd (stage_bdd rv s)) = pNtk s) /\
  after_loop (Some rv) s =
  Ok (assign_model (sat_ret r)
        {| pNtk := sat_ntk r;
           pParams := p;
           trace := trace s ++
                    [EvCollapse (nBddSizeLimit p) (fBddReorder p) false;
                     EvSat (nMiteringLimitLast p) (inspect_limit p) false
                           (sat_ret r) (sat_confs r) (sat_insps r)] |}).
Proof.
  intros Hrv HB HC p r. unfold after_loop.
  rewrite (stage_bdd_none rv s Hrv HB HC). split; [split; reflexivity|].
  unfold stage_last_sat. apply Z.ltb_lt in Hrv. rewrite Hrv. unstate.
  rewrite <- app_assoc. reflexivity.
Qed.

(** C3 (as the code has it). When [Abc_NtkCollapse] returns a network the
    verdict is decided there: 1 (UNSAT) exactly when the network has one
    node and its output is the logic zero, otherwise 0 (SAT).  Either way
    no SAT attempt follows; the call goes straight to the assignment of
    the model. *)
Theorem bdd_built_decides (rv : Z) s n :
  rv < 0 ->
  fUseBdds (pParams s) <> 0 ->
  Abc_NtkCollapse (pNtk s) (nBddSizeLimit (pParams s)) (fBddReorder (pParams s)) = Some n ->
  let p := pParams s in
  let s' := {| pNtk := n;
               pParams := p;
               trace := trace s ++ [EvCollapse (nBddSizeLimit p) (fBddReorder p) true] |} in
  exists verdict,
    stage_bdd rv s = (verdict, s') /\
    (verdict = 1 <-> Abc_NtkNodeNum (ntkAig n) = 1 /\ po_is_logic_zero n = true) /\
    (verdict = 0 <-> ~ (Abc_NtkNodeNum (ntkAig n) = 1 /\ po_is_logic_zero n = true)) /\
    after_loop (Some rv) s = Ok (assign_model verdict s').
Proof.
  intros Hrv HB HC p s'.
  exists (if (Abc_NtkNodeNum (ntkAig n) =? 1) && po_is_logic_zero n then 1 else 0).
  assert (Hs : stage_bdd rv s =
               (if (Abc_NtkNodeNum (ntkAig n) =? 1) && po_is_logic_zero n then 1 else 0, s'))
    by (rewrite (stage_bdd_some rv s n Hrv HB HC); reflexivity).
  split; [exact Hs|].
  unfold after_loop. rewrite Hs.
  destruct (Abc_NtkNodeNum (ntkAig n) =? 1) eqn:HN; destruct (po_is_logic_zero n) eqn:HZ; cbn [andb];
    zbool; (split; [|split]);
    try (rewrite stage_last_sat_skipped by lia; reflexivity);
    intuition (try congruence; try lia).
Qed.

(** ** The stages of an iteration, case by case *)

Lemma stage_sat_decided (nIter : Z) s :
  let p := pParams s in
  let lim := sint64_limit (nMiteringLimitStart p) (nMiteringLimitMulti p) nIter in
  let r := Abc_NtkMiterSat (pNtk s) lim (inspect_limit p) in
  0 <= sat_ret r ->
  stage_sat nIter s =
  Break (sat_ret r)
    {| pNtk := sat_ntk r;
       pParams := p;
       trace := trace s ++
                [EvSat lim (inspect_limit p) true (sat_ret r) (sat_confs r) (sat_insps r)] |}.
Proof.
  intros p lim r H. unfold stage_sat. fold p lim r.
  destruct (sat_ret r >=? 0) eqn:G; [reflexivity | zbool; lia].
Qed.

Lemma stage_sat_undecided (nIter : Z) s :
  let p := pParams s in
  let lim := sint64_limit (nMiteringLimitStart p) (nMiteringLimitMulti p) nIter in
  let r := Abc_NtkMiterSat (pNtk s) lim (inspect_limit p) in
  let s' := {| pNtk := sat_ntk r;
               pParams := add_totals p (sat_confs r) (sat_insps r);
               trace := trace s ++
                        [EvSat lim (inspect_limit p) true
                               (sat_ret r) (sat_confs r) (sat_insps r)] |} in
  sat_ret r < 0 ->
  stage_sat nIter s =
  if limit_reached (pParams s') then Return (-1) s' else Continue (sat_ret r) s'.
Proof.
  intros p lim r s' H. unfold stage_sat. fold p lim r.
  destruct (sat_ret r >=? 0) eqn:G; [zbool; lia | reflexivity].
Qed.

Lemma stage_fraiging_off (nIter rv : Z) s :
  fUseFraiging (pParams s) = 0 -> stage_fraiging nIter rv s = Ok (Continue rv s).
Proof. intros H. unfold stage_fraiging. now rewrite (truthy_zero _ H). Qed.

Lemma stage_fraiging_decided (nIter rv : Z) s (r : fraig_result Aig) :
  let p := pParams s in
  let lim := int_limit (nFraigingLimitStart p) (nFraigingLimitMulti p) nIter in
  fUseFraiging p <> 0 ->
  Abc_NtkMiterFraig (pNtk s) lim (inspect_limit p) = Ok r ->
  0 <= fr_ret r ->
  stage_fraiging nIter rv s =
  Ok (Break (fr_ret r)
        {| pNtk := fr_ntk r;
           pParams := p;
           trace := trace s ++
                    [EvFraig lim (inspect_limit p) (fr_ret r) (fr_confs r) (fr_insps r)] |}).
Proof.
  intros p lim HF HR H. unfold stage_fraiging. fold p lim.
  rewrite (truthy_nonzero _ HF), HR. cbn [bind].
  destruct (fr_ret r >=? 0) eqn:G; [reflexivity | zbool; lia].
Qed.

Lemma stage_fraiging_undecided (nIter rv : Z) s (r : fraig_result Aig) :
  let p := pParams s in
  let lim := int_limit (nFraigingLimitStart p) (nFraigingLimitMulti p) nIter in
  let s' := {| pNtk := fr_ntk r;
               pParams := add_totals p (fr_confs r) (fr_insps r);
               trace := trace s ++
                        [EvFraig lim (inspect_limit p)
                                 (fr_ret r) (fr_confs r) (fr_insps r)] |} in
  fUseFraiging p <> 0 ->
  Abc_NtkMiterFraig (pNtk s) lim (inspect_limit p) = Ok r ->
  fr_ret r < 0 ->
  stage_fraiging nIter rv s =
  Ok (if limit_reached (pParams s') then Return (-1) s' else Continue (fr_ret r) s').
Proof.
  intros p lim s' HF HR H. unfold stage_fraiging. fold p lim.
  rewrite (truthy_nonzero _ HF), HR. cbn [bind].
  destruct (fr_ret r >=? 0) eqn:G; [zbool; lia |].
  unstate. fold p lim s'. cbn [pParams].
  destruct (limit_reached _); reflexivity.
Qed.

(** A [return] inside the body ends the call there. *)
Lemma prove_from_return (fuel n : nat) (nIter ret : Z) (rv : option Z) s s' :
  iteration fuel nIter s = Ok (Return ret s') ->
  prove_from fuel (S n) nIter rv s = Ok (ret, s').
Proof. intros H. unfold prove_from. cbn [for_loop]. rewrite H. reflexivity. Qed.

(** ** The global limits *)

(** C5. Once the conflicts and inspects of a SAT call or of a fraiging
    call have been added to the totals and a nonzero global limit is
    reached, the call returns -1 at that point: the network is the one
    that call left, and the trace ends with that call, so neither the BDD
    construction nor the last SAT attempt is made. *)
Theorem global_limit_abort (fuel n : nat) (nIter : Z) (rv : option Z) s :
  let p := pParams s in
  let lim := sint64_limit (nMiteringLimitStart p) (nMiteringLimitMulti p) nIter in
  let r := Abc_NtkMiterSat (pNtk s) lim (inspect_limit p) in
  (sat_ret r < 0 ->
   limit_reached (add_totals p (sat_confs r) (sat_insps r)) = true ->
   prove_from fuel (S n) nIter rv s =
   Ok (-1, {| pNtk := sat_ntk r;
              pParams := add_totals p (sat_confs r) (sat_insps r);
              trace := trace s ++
                       [EvSat lim (inspect_limit p) true
                              (sat_ret r) (sat_confs r) (sat_insps r)] |}))
  /\
  (forall (rv1 rv2 : Z) (s1 s2 : State) (f : fraig_result Aig),
     let p2 := pParams s2 in
     let flim := int_limit (nFraigingLimitStart p2) (nFraigingLimitMulti p2) nIter in
     stage_sat nIter s = Continue rv1 s1 ->
     stage_rewriting fuel nIter rv1 s1 = Ok (rv2, s2) ->
     fUseFraiging p2 <> 0 ->
     Abc_NtkMiterFraig (pNtk s2) flim (inspect_limit p2) = Ok f ->
     fr_ret f < 0 ->
     limit_reached (add_totals p2 (fr_confs f) (fr_insps f)) = true ->
     prove_from fuel (S n) nIter rv s =
     Ok (-1, {| pNtk := fr_ntk f;
                pParams := add_totals p2 (fr_confs f) (fr_insps f);
                trace := trace s2 ++
                         [EvFraig flim (inspect_limit p2)
                                  (fr_ret f) (fr_confs f) (fr_insps f)] |})).
Proof.
  intros p lim r. split.
  - intros Hret Hlim. apply prove_from_return.
    unfold iteration. rewrite (stage_sat_undecided nIter s Hret).
    cbn [pParams]. fold p lim r. rewrite Hlim. reflexivity.
  - intros rv1 rv2 s1 s2 f p2 flim Hsat Hrw HF Hfr Hret Hlim.
    apply prove_from_return.
    unfold iteration. rewrite Hsat, Hrw. cbn [bind].
    rewrite (stage_fraiging_undecided nIter rv2 s2 f HF Hfr Hret).
    cbn [pParams]. fold p2. rewrite Hlim. reflexivity.
Qed.

(** ** The rewriting stage *)

Lemma transformed_app (ts us : list transform) n :
  transformed (ts ++ us) n = transformed us (transformed ts n).
Proof. unfold transformed. apply fold_left_app. Qed.

Lemma apply_transform_eq (t : transform) s :
  apply_transform t s =
  {| pNtk := transform_ntk t (pNtk s);
     pParams := pParams s;
     trace := trace s ++ [EvTransform t] |}.
Proof. destruct t; reflexivity. Qed.

Lemma after_transforms_snoc (ts : list transform) (t : transform) s :
  apply_transform t (after_transforms ts s) = after_transforms (ts ++ [t]) s.
Proof.
  rewrite apply_transform_eq. unfold after_transforms. cbn [pNtk pParams trace].
  rewrite transformed_app, map_app, app_assoc. reflexivity.
Qed.

Lemma after_transforms_app (ts us : list transform) s :
  after_transforms us (after_transforms ts s) = after_transforms (ts ++ us) s.
Proof.
  unfold after_transforms. cbn [pNtk pParams trace].
  rewrite transformed_app, map_app, app_assoc. reflexivity.
Qed.

Lemma apply_transform_first (t : transform) s :
  apply_transform t s = after_transforms [t] s.
Proof. rewrite apply_transform_eq. reflexivity. Qed.

(** One pass through the body of the [while ( 1 )], as a case analysis on
    the three tests of the network and the three tests of the counter. *)
Lemma rewriting_loop_pass (fuel : nat) (Counter : Z) s :
  rewriting_loop (S fuel) Counter s =
  let c1 := Abc_NtkMiterIsConstant (pNtk (after_transforms (rotation 1 Rewrite) s)) in
  let c2 := Abc_NtkMiterIsConstant (pNtk (after_transforms (rotation 2 Rewrite) s)) in
  let c3 := Abc_NtkMiterIsConstant (pNtk (after_transforms (rotation 3 Rewrite) s)) in
  if c1 >=? 0 then Ok (c1, after_transforms (rotation 1 Rewrite) s) else
  if Counter - 1 =? 0 then Ok (c1, after_transforms (rotation 1 Rewrite) s) else
  if c2 >=? 0 then Ok (c2, after_transforms (rotation 2 Rewrite) s) else
  if Counter - 1 - 1 =? 0 then Ok (c2, after_transforms (rotation 2 Rewrite) s) else
  if c3 >=? 0 then Ok (c3, after_transforms (rotation 3 Rewrite) s) else
  if Counter - 1 - 1 - 1 =? 0 then Ok (c3, after_transforms (rotation 3 Rewrite) s) else
  rewriting_loop fuel (Counter - 1 - 1 - 1) (after_transforms (rotation 3 Rewrite) s).
Proof.
  cbn [rewriting_loop rotation next_transform].
  rewrite (apply_transform_first Rewrite s).
  rewrite (after_transforms_snoc [Rewrite] Refactor s).
  rewrite (after_transforms_snoc ([Rewrite] ++ [Refactor]) Balance s).
  reflexivity.
Qed.

Lemma rotation_plus_3 (k : nat) :
  rotation (3 + k) Rewrite = rotation 3 Rewrite ++ rotation k Rewrite.
Proof. reflexivity. Qed.

(** Whatever the counter, a rewriting stage that comes back has applied a
    nonempty prefix of the rotation, reports the constant test of the
    network it leaves, and has not touched the parameters. *)
Lemma rewriting_loop_inv (fuel : nat) :
  forall (Counter : Z) s (r : Z) (s' : State),
    rewriting_loop fuel Counter s = Ok (r, s') ->
    exists k : nat,
      (1 <= k)%nat /\
      s' = after_transforms (rotation k Rewrite) s /\
      r = Abc_NtkMiterIsConstant (pNtk s').
Proof.
  induction fuel as [|fuel IH]; intros Counter s r s' H; [discriminate|].
  rewrite rewriting_loop_pass in H. cbv zeta in H.
  repeat match type of H with
         | (if ?b then _ else _) = _ => destruct b
         end;
    try (injection H as <- <-;
         first [ exists 1%nat; split; [lia | split; reflexivity]
               | exists 2%nat; split; [lia | split; reflexivity]
               | exists 3%nat; split; [lia | split; reflexivity] ]).
  apply IH in H. destruct H as (k & Hk & -> & ->).
  exists (3 + k)%nat. rewrite rotation_plus_3, <- after_transforms_app.
  split; [lia | split; reflexivity].
Qed.

(* Leaving the loop after [k] steps of the current pass. *)
Ltac leave_at k :=
  exists k; zbool; cbn [pNtk after_transforms] in *;
  (split; [lia|]); (split; [lia|]); (split; [reflexivity|]);
  split;
  [ let j := fresh "j" in
    intros j ?;
    do 4 (destruct j as [|j]; [first [lia | assumption]|]); lia
  | intros; lia ].

(** C4. Given a positive step budget [Counter] (and fuel for that many
    steps), the rewriting loop returns.  It has then applied the first [k]
    transformations of the rotation rewrite, refactor, balance, with
    [1 <= k <= Counter]; the value returned is the constant test of the
    network after the [k]-th; no earlier test had found a constant; and
    when the last test finds none either, all [Counter] steps were used. *)
Theorem rewriting_loop_budget (fuel : nat) :
  forall (Counter : Z) s,
    0 < Counter ->
    Counter <= 3 * Z.of_nat fuel ->
    exists k : nat,
      (1 <= k)%nat /\ Z.of_nat k <= Counter /\
      rewriting_loop fuel Counter s =
      Ok (Abc_NtkMiterIsConstant (transformed (rotation k Rewrite) (pNtk s)),
          {| pNtk := transformed (rotation k Rewrite) (pNtk s);
             pParams := pParams s;
             trace := trace s ++ map EvTransform (rotation k Rewrite) |}) /\
      (forall j : nat, (1 <= j < k)%nat ->
         Abc_NtkMiterIsConstant (transformed (rotation j Rewrite) (pNtk s)) < 0) /\
      (Abc_NtkMiterIsConstant (transformed (rotation k Rewrite) (pNtk s)) < 0 ->
       Z.of_nat k = Counter).
Proof.
  induction fuel as [|fuel IH]; intros Counter s Hpos Hfuel; [lia|].
  rewrite rewriting_loop_pass. cbv zeta.
  destruct (Abc_NtkMiterIsConstant (pNtk (after_transforms (rotation 1 Rewrite) s)) >=? 0) eqn:C1;
    [leave_at 1%nat|].
  destruct (Counter - 1 =? 0) eqn:K1; [leave_at 1%nat|].
  destruct (Abc_NtkMiterIsConstant (pNtk (after_transforms (rotation 2 Rewrite) s)) >=? 0) eqn:C2;
    [leave_at 2%nat|].
  destruct (Counter - 1 - 1 =? 0) eqn:K2; [leave_at 2%nat|].
  destruct (Abc_NtkMiterIsConstant (pNtk (after_transforms (rotation 3 Rewrite) s)) >=? 0) eqn:C3;
    [leave_at 3%nat|].
  destruct (Counter - 1 - 1 - 1 =? 0) eqn:K3; [leave_at 3%nat|].
  zbool.
  destruct (IH (Counter - 1 - 1 - 1) (after_transforms (rotation 3 Rewrite) s))
    as (k & Hk1 & Hk2 & Hrun & Hearlier & Hlast); [lia | lia |].
  exists (3 + k)%nat.
  cbn [pNtk after_transforms] in C1, C2, C3.
  cbn [pNtk pParams trace after_transforms] in Hrun, Hearlier, Hlast.
  rewrite <- transformed_app, <- rotation_plus_3 in Hrun, Hlast.
  rewrite <- app_assoc, <- map_app, <- rotation_plus_3 in Hrun.
  split; [lia|]. split; [lia|]. split; [exact Hrun|]. split.
  - intros j Hj.
    destruct (Nat.le_gt_cases j 3) as [Hle | Hgt].
    + assert (j = 1 \/ j = 2 \/ j = 3)%nat as [-> | [-> | ->]] by lia; assumption.
    + replace j with (3 + (j - 3))%nat by lia.
      rewrite rotation_plus_3, transformed_app. apply Hearlier. lia.
  - intros Hneg. apply Hlast in Hneg. lia.
Qed.

(** ** Faults *)

Lemma rewriting_loop_fault (fuel : nat) :
  forall (Counter : Z) s (f : fault),
    rewriting_loop fuel Counter s = Fault f -> f = OutOfFuel.
Proof.
  induction fuel as [|fuel IH]; intros Counter s f H.
  - now injection H as <-.
  - rewrite rewriting_loop_pass in H. cbv zeta in H.
    repeat match type of H with
           | (if ?b then _ else _) = _ => destruct b
           end; try discriminate.
    eapply IH; eassumption.
Qed.

Lemma Abc_NtkMiterFraig_fault n (a b : Z) (f : fault) :
  Abc_NtkMiterFraig n a b = Fault f -> f = DivByZero.
Proof.
  unfold Abc_NtkMiterFraig.
  destruct (_ =? 0); [now intros [= <-] | discriminate].
Qed.

Lemma Abc_NtkMiterFraig_ret n (a b : Z) (r : fraig_result Aig) :
  Abc_NtkMiterFraig n a b = Ok r -> exists m, fr_ret r = Fraig_ManCheckMiter m.
Proof.
  unfold Abc_NtkMiterFraig.
  destruct (_ =? 0); [discriminate | intros [= <-]; cbn; eauto].
Qed.

Lemma stage_fraiging_fault (nIter rv : Z) s (f : fault) :
  stage_fraiging nIter rv s = Fault f -> f = DivByZero.
Proof.
  unfold stage_fraiging. destruct (truthy _); [|discriminate].
  intros H. apply bind_Fault in H. destruct H as [H | (r & _ & H)].
  - eapply Abc_NtkMiterFraig_fault; eassumption.
  - cbv zeta in H.
    repeat match type of H with
           | (if ?b then _ else _) = _ => destruct b
           end; discriminate.
Qed.

Lemma iteration_fault (fuel : nat) (nIter : Z) s (f : fault) :
  iteration fuel nIter s = Fault f -> f <> UninitRead.
Proof.
  unfold iteration. destruct (stage_sat nIter s) as [rv s1 | |]; try discriminate.
  unfold stage_rewriting. intros H. apply bind_Fault in H.
  destruct H as [H | ([rv2 s2] & _ & H)].
  - destruct (truthy _); [|discriminate].
    apply rewriting_loop_fault in H. now subst.
  - apply stage_fraiging_fault in H. now subst.
Qed.

Lemma for_loop_fault (fuel n : nat) :
  forall (nIter : Z) (rv : option Z) s (f : fault),
    for_loop fuel n nIter rv s = Fault f -> f <> UninitRead.
Proof.
  induction n as [|n IH]; intros nIter rv s f H; [discriminate|].
  cbn [for_loop] in H. apply bind_Fault in H.
  destruct H as [H | (c & _ & H)].
  - eapply iteration_fault; eassumption.
  - destruct c; try discriminate. eapply IH; eassumption.
Qed.

(** The loop is only left with [RetValue] unassigned when it was entered
    so and its body never ran. *)
Lemma for_loop_unassigned (fuel n : nat) :
  forall (nIter : Z) (rv : option Z) s (s' : State),
    for_loop fuel n nIter rv s = Ok (inr (None, s')) -> n = O /\ rv = None.
Proof.
  induction n as [|n IH]; intros nIter rv s s' H.
  - injection H as -> _. split; reflexivity.
  - cbn [for_loop] in H. apply bind_Ok in H. destruct H as (c & _ & H).
    destruct c as [r s1 | r s1 | r s1]; try discriminate.
    apply IH in H. destruct H as [_ H]. discriminate.
Qed.

Lemma after_loop_assigned (rv : Z) s : exists x, after_loop (Some rv) s = Ok x.
Proof.
  unfold after_loop. destruct (stage_bdd rv s) as [r1 s1].
  destruct (stage_last_sat r1 s1) as [r2 s2]. eauto.
Qed.

(** ** The return value *)

Lemma assign_model_ret (rv : Z) s : fst (assign_model rv s) = rv.
Proof.
  unfold assign_model. destruct (pModel (pNtk s)); [reflexivity|].
  destruct (rv =? 0); reflexivity.
Qed.

Lemma iteration_ret (fuel : nat) (nIter : Z) s (c : ctrl State) :
  engines_tri_state ->
  iteration fuel nIter s = Ok c ->
  match c with
  | Return r _ => r = -1
  | Continue r _ | Break r _ => tri_state r
  end.
Proof.
  intros (Hsat & Hconst & Hfraig). unfold iteration, stage_sat.
  destruct (sat_ret _ >=? 0) eqn:G1; [intros [= <-]; apply Hsat|].
  destruct (limit_reached _); [intros [= <-]; reflexivity|].
  intros H. apply bind_Ok in H. destruct H as ([rv2 s2] & Hrw & H).
  assert (T2 : tri_state rv2).
  { unfold stage_rewriting in Hrw. destruct (truthy _).
    - apply rewriting_loop_inv in Hrw. destruct Hrw as (k & _ & _ & ->). apply Hconst.
    - injection Hrw as <- _. apply Hsat. }
  unfold stage_fraiging in H. destruct (truthy _); [|injection H as <-; exact T2].
  apply bind_Ok in H. destruct H as (r & Hr & H).
  apply Abc_NtkMiterFraig_ret in Hr. destruct Hr as (m & Hm).
  cbv zeta in H.
  destruct (fr_ret r >=? 0); [injection H as <-; rewrite Hm; apply Hfraig|].
  destruct (limit_reached _); injection H as <-; [reflexivity|].
  rewrite Hm; apply Hfraig.
Qed.

Lemma for_loop_ret (fuel n : nat) :
  engines_tri_state ->
  forall (nIter : Z) (rv : option Z) s x,
    for_loop fuel n nIter rv s = Ok x ->
    (forall r, rv = Some r -> tri_state r) ->
    match x with
    | inl (r, _) => r = -1
    | inr (Some r, _) => tri_state r
    | inr (None, _) => True
    end.
Proof.
  intros HE. induction n as [|n IH]; intros nIter rv s x H Hrv.
  - injection H as <-. destruct rv; [now apply Hrv | exact I].
  - cbn [for_loop] in H. apply bind_Ok in H. destruct H as (c & Hc & H).
    pose proof (iteration_ret _ _ _ _ HE Hc) as T.
    destruct c as [r s1 | r s1 | r s1].
    + eapply IH; [exact H|]. now intros ? [= <-].
    + now injection H as <-.
    + now injection H as <-.
Qed.

Lemma stage_bdd_ret (rv : Z) s : tri_state rv -> tri_state (fst (stage_bdd rv s)).
Proof.
  intros T. unfold stage_bdd. destruct (_ && _); [|exact T].
  destruct (Abc_NtkCollapse _ _ _); [|exact T].
  cbn. destruct (_ && _); unfold tri_state; lia.
Qed.

Lemma stage_last_sat_ret (rv : Z) s :
  engines_tri_state -> tri_state rv -> tri_state (fst (stage_last_sat rv s)).
Proof.
  intros (Hsat & _) T. unfold stage_last_sat.
  destruct (rv <? 0); [apply Hsat | exact T].
Qed.

(** With engines that keep to the return convention, so does the prover. *)
Lemma Abc_NtkMiterProve_ret (fuel : nat) n p (ret : Z) s :
  engines_tri_state ->
  Abc_NtkMiterProve fuel n p = Ok (ret, s) ->
  tri_state ret.
Proof.
  intros HE. unfold Abc_NtkMiterProve.
  destruct (_ && _).
  - intros [= <- _]. apply HE.
  - unfold prove_from. intros H. apply bind_Ok in H. destruct H as (x & Hx & H).
    pose proof (for_loop_ret _ _ HE _ _ _ _ Hx) as T.
    destruct x as [[r s1] | [[r|] s1]].
    + injection H as <- _. rewrite T; [unfold tri_state; lia | discriminate].
    + assert (Tr : tri_state r) by (apply T; discriminate).
      unfold after_loop in H.
      pose proof (stage_bdd_ret r s1 Tr) as T1.
      destruct (stage_bdd r s1) as [r1 s2]. cbn [fst] in T1.
      pose proof (stage_last_sat_ret r1 s2 HE T1) as T2.
      destruct (stage_last_sat r1 s2) as [r2 s3]. cbn [fst] in T2.
      injection H as H. pose proof (assign_model_ret r2 s3) as A.
      rewrite H in A. cbn in A. now subst.
    + discriminate.
Qed.

(** C10. With rewriting or fraiging on, an iteration cap of zero or less
    makes the call read [RetValue] before anything was stored in it; with
    a cap of at least one that read never happens, and what the call
    returns is one of -1, 0, 1 as long as the engines return such. *)
Theorem iteration_cap_and_RetValue (fuel : nat) n p :
  fUseRewriting p <> 0 \/ fUseFraiging p <> 0 ->
  (nItersMax p <= 0 -> Abc_NtkMiterProve fuel n p = Fault UninitRead) /\
  (1 <= nItersMax p ->
   Abc_NtkMiterProve fuel n p <> Fault UninitRead /\
   (engines_tri_state ->
    forall (ret : Z) s, Abc_NtkMiterProve fuel n p = Ok (ret, s) -> tri_state ret)).
Proof.
  intros Hmode.
  assert (Hloop : Abc_NtkMiterProve fuel n p =
                  prove_from fuel (Z.to_nat (nItersMax p)) 0 None
                    {| pNtk := n; pParams := p; trace := [] |}).
  { unfold Abc_NtkMiterProve.
    destruct Hmode as [H | H]; rewrite (truthy_nonzero _ H); cbn;
      [reflexivity | now rewrite andb_false_r]. }
  split.
  - intros Hcap. rewrite Hloop.
    replace (Z.to_nat (nItersMax p)) with O by lia. reflexivity.
  - intros Hcap. split.
    + rewrite Hloop. unfold prove_from. intros H. apply bind_Fault in H.
      destruct H as [H | (x & Hx & H)].
      * now apply for_loop_fault in H.
      * destruct x as [[r s1] | [[r|] s1]]; [discriminate | |].
        -- destruct (after_loop_assigned r s1) as (y & Hy). congruence.
        -- apply for_loop_unassigned in Hx. lia.
    + intros HE ret s. now apply Abc_NtkMiterProve_ret.
Qed.

(** ** The running totals *)

Lemma total_confs_app (a b : list event) :
  total_confs (a ++ b) = total_confs a + total_confs b.
Proof.
  unfold total_confs, total_insps.
  induction a as [|e a IH]; cbn [app fold_right]; [reflexivity | rewrite IH; lia].
Qed.

Lemma total_insps_app (a b : list event) :
  total_insps (a ++ b) = total_insps a + total_insps b.
Proof.
  unfold total_confs, total_insps.
  induction a as [|e a IH]; cbn [app fold_right]; [reflexivity | rewrite IH; lia].
Qed.

Lemma total_confs_transforms (ts : list transform) :
  total_confs (map EvTransform ts) = 0.
Proof.
  unfold total_confs, total_insps.
  induction ts as [|t ts IH]; cbn [map fold_right]; [reflexivity | rewrite IH; reflexivity].
Qed.

Lemma total_insps_transforms (ts : list transform) :
  total_insps (map EvTransform ts) = 0.
Proof.
  unfold total_confs, total_insps.
  induction ts as [|t ts IH]; cbn [map fold_right]; [reflexivity | rewrite IH; reflexivity].
Qed.

Lemma add_totals_0 p : add_totals p 0 0 = p.
Proof. destruct p; unfold add_totals; cbn; f_equal; lia. Qed.

Lemma add_totals_add p (a b c d : Z) :
  add_totals (add_totals p a b) c d = add_totals p (a + c) (b + d).
Proof. unfold add_totals; cbn; f_equal; lia. Qed.

(** A call that is not charged. *)
Lemma accounted_emit (p0 : Params) (e : event) n s :
  charged_confs e = 0 ->
  charged_insps e = 0 ->
  accounted p0 s ->
  accounted p0 (emit e (with_ntk n s)).
Proof.
  unfold accounted. unstate. intros Hc Hi ->.
  rewrite total_confs_app, total_insps_app. cbn. rewrite Hc, Hi.
  f_equal; lia.
Qed.

(** A call that is charged. *)
Lemma accounted_charge (p0 : Params) (e : event) n s :
  accounted p0 s ->
  accounted p0 (account (charged_confs e) (charged_insps e) (emit e (with_ntk n s))).
Proof.
  unfold accounted. unstate. intros ->.
  rewrite total_confs_app, total_insps_app, add_totals_add. cbn.
  f_equal; lia.
Qed.

Lemma accounted_transforms (p0 : Params) (ts : list transform) s :
  accounted p0 s -> accounted p0 (after_transforms ts s).
Proof.
  unfold accounted, after_transforms. cbn [pParams trace]. intros ->.
  rewrite total_confs_app, total_insps_app, total_confs_transforms, total_insps_transforms.
  f_equal; lia.
Qed.

Lemma stage_sat_accounted (p0 : Params) (nIter : Z) s :
  accounted p0 s -> accounted p0 (ctrl_state (stage_sat nIter s)).
Proof.
  intros A. unfold stage_sat.
  set (r := Abc_NtkMiterSat _ _ _).
  set (e := EvSat _ _ true (sat_ret r) (sat_confs r) (sat_insps r)).
  destruct (sat_ret r >=? 0) eqn:G; cbn [ctrl_state].
  - apply accounted_emit; [| |exact A]; subst e; cbn;
      (destruct (sat_ret r <? 0) eqn:L; [zbool; lia | reflexivity]).
  - assert (L : (sat_ret r <? 0) = true) by (zbool; lia).
    assert (Hc : sat_confs r = charged_confs e) by (subst e; cbn; now rewrite L).
    assert (Hi : sat_insps r = charged_insps e) by (subst e; cbn; now rewrite L).
    rewrite Hc, Hi.
    destruct (limit_reached _); cbn [ctrl_state]; now apply accounted_charge.
Qed.

Lemma stage_rewriting_accounted (p0 : Params) (fuel : nat) (nIter rv rv' : Z) s s' :
  stage_rewriting fuel nIter rv s = Ok (rv', s') ->
  accounted p0 s -> accounted p0 s'.
Proof.
  unfold stage_rewriting. destruct (truthy _).
  - intros H A. apply rewriting_loop_inv in H. destruct H as (k & _ & -> & _).
    now apply accounted_transforms.
  - now intros [= _ <-].
Qed.

Lemma stage_fraiging_accounted (p0 : Params) (nIter rv : Z) s (c : ctrl State) :
  stage_fraiging nIter rv s = Ok c ->
  accounted p0 s -> accounted p0 (ctrl_state c).
Proof.
  unfold stage_fraiging. destruct (truthy _); [|now intros [= <-]].
  intros H A. apply bind_Ok in H. destruct H as (r & _ & H). cbv zeta in H.
  set (e := EvFraig _ _ (fr_ret r) (fr_confs r) (fr_insps r)) in H.
  destruct (fr_ret r >=? 0) eqn:G.
  - injection H as <-. cbn [ctrl_state].
    apply accounted_emit; [| |exact A]; subst e; cbn;
      (destruct (fr_ret r <? 0) eqn:L; [zbool; lia | reflexivity]).
  - assert (L : (fr_ret r <? 0) = true) by (zbool; lia).
    assert (Hc : fr_confs r = charged_confs e) by (subst e; cbn; now rewrite L).
    assert (Hi : fr_insps r = charged_insps e) by (subst e; cbn; now rewrite L).
    rewrite Hc, Hi in H.
    destruct (limit_reached _); injection H as <-; cbn [ctrl_state];
      now apply accounted_charge.
Qed.

Lemma iteration_accounted (p0 : Params) (fuel : nat) (nIter : Z) s (c : ctrl State) :
  iteration fuel nIter s = Ok c ->
  accounted p0 s -> accounted p0 (ctrl_state c).
Proof.
  intros H A. unfold iteration in H.
  pose proof (stage_sat_accounted p0 nIter s A) as A1.
  destruct (stage_sat nIter s) as [rv1 s1 | rv1 s1 | rv1 s1]; cbn [ctrl_state] in A1;
    try (injection H as <-; exact A1).
  apply bind_Ok in H. destruct H as ([rv2 s2] & Hrw & H).
  eapply stage_fraiging_accounted; [exact H|].
  eapply stage_rewriting_accounted; eassumption.
Qed.

Lemma for_loop_accounted (p0 : Params) (fuel n : nat) :
  forall (nIter : Z) (rv : option Z) s x,
    for_loop fuel n nIter rv s = Ok x ->
    accounted p0 s ->
    accounted p0 (match x with inl (_, s') => s' | inr (_, s') => s' end).
Proof.
  induction n as [|n IH]; intros nIter rv s x H A.
  - now injection H as <-.
  - cbn [for_loop] in H. apply bind_Ok in H. destruct H as (c & Hc & H).
    pose proof (iteration_accounted p0 _ _ _ _ Hc A) as A1.
    destruct c as [r s1 | r s1 | r s1]; cbn [ctrl_state] in A1.
    + eapply IH; eassumption.
    + now injection H as <-.
    + now injection H as <-.
Qed.

Lemma stage_bdd_accounted (p0 : Params) (rv : Z) s :
  accounted p0 s -> accounted p0 (snd (stage_bdd rv s)).
Proof.
  intros A. unfold stage_bdd. destruct (_ && _); [|exact A].
  destruct (Abc_NtkCollapse _ _ _) as [n|]; cbn [snd].
  - now apply accounted_emit.
  - replace s with (with_ntk (pNtk s) s) at 3 by (destruct s; reflexivity).
    now apply accounted_emit.
Qed.

Lemma stage_last_sat_params (rv : Z) s : pParams (snd (stage_last_sat rv s)) = pParams s.
Proof. unfold stage_last_sat. destruct (rv <? 0); reflexivity. Qed.

Lemma stage_last_sat_accounted (p0 : Params) (rv : Z) s :
  accounted p0 s -> accounted p0 (snd (stage_last_sat rv s)).
Proof.
  intros A. unfold stage_last_sat. destruct (rv <? 0); [|exact A].
  cbn [snd]. now apply accounted_emit.
Qed.

Lemma assign_model_accounted (p0 : Params) (rv : Z) s :
  accounted p0 s -> accounted p0 (snd (assign_model rv s)).
Proof.
  intros A. unfold assign_model. destruct (pModel (pNtk s)); [exact A|].
  destruct (rv =? 0); exact A.
Qed.

Lemma Abc_NtkMiterProve_accounted (fuel : nat) n p (ret : Z) s :
  Abc_NtkMiterProve fuel n p = Ok (ret, s) -> accounted p s.
Proof.
  assert (A0 : accounted p {| pNtk := n; pParams := p; trace := [] |})
    by (unfold accounted; cbn; now rewrite add_totals_0).
  unfold Abc_NtkMiterProve. destruct (_ && _).
  - intros [= _ <-]. unfold sat_only.
    now apply accounted_emit.
  - unfold prove_from. intros H. apply bind_Ok in H. destruct H as (x & Hx & H).
    pose proof (for_loop_accounted p _ _ _ _ _ _ Hx A0) as A1.
    destruct x as [[r s1] | [[r|] s1]].
    + now injection H as _ <-.
    + unfold after_loop in H.
      pose proof (stage_bdd_accounted p r s1 A1) as A2.
      destruct (stage_bdd r s1) as [r1 s2]. cbn [snd] in A2.
      pose proof (stage_last_sat_accounted p r1 s2 A2) as A3.
      destruct (stage_last_sat r1 s2) as [r2 s3]. cbn [snd] in A3.
      pose proof (assign_model_accounted p r2 s3 A3) as A4.
      injection H as H. rewrite H in A4. exact A4.
    + discriminate.
Qed.

(** C2 (as the code has it). The totals a call leaves are the totals it
    began with plus the conflicts and inspects of the SAT and fraiging
    calls of the loop that came back without a verdict; in the loop that
    addition is followed at once by the test of the global limits, which
    returns -1 when one is reached.  The SAT call of the SAT-only mode and
    the last SAT attempt pass no counters: they leave the parameter block
    as it is. *)
Theorem totals_accounting :
  (forall (fuel : nat) n p (ret : Z) s,
     Abc_NtkMiterProve fuel n p = Ok (ret, s) ->
     pParams s = add_totals p (total_confs (trace s)) (total_insps (trace s)))
  /\
  (forall (nIter : Z) s,
     let p := pParams s in
     let r := Abc_NtkMiterSat (pNtk s)
                (sint64_limit (nMiteringLimitStart p) (nMiteringLimitMulti p) nIter)
                (inspect_limit p) in
     sat_ret r < 0 ->
     pParams (ctrl_state (stage_sat nIter s)) = add_totals p (sat_confs r) (sat_insps r) /\
     (limit_reached (add_totals p (sat_confs r) (sat_insps r)) = true ->
      exists s', stage_sat nIter s = Return (-1) s'))
  /\
  (forall (nIter rv : Z) s (r : fraig_result Aig),
     let p := pParams s in
     fUseFraiging p <> 0 ->
     Abc_NtkMiterFraig (pNtk s)
       (int_limit (nFraigingLimitStart p) (nFraigingLimitMulti p) nIter)
       (inspect_limit p) = Ok r ->
     fr_ret r < 0 ->
     exists c,
       stage_fraiging nIter rv s = Ok c /\
       pParams (ctrl_state c) = add_totals p (fr_confs r) (fr_insps r) /\
       (limit_reached (add_totals p (fr_confs r) (fr_insps r)) = true ->
        exists s', c = Return (-1) s'))
  /\
  (forall (fuel : nat) n p,
     fUseRewriting p = 0 ->
     fUseFraiging p = 0 ->
     exists (ret : Z) s,
       Abc_NtkMiterProve fuel n p = Ok (ret, s) /\ pParams s = p)
  /\
  (forall (rv : Z) s, pParams (snd (stage_last_sat rv s)) = pParams s).
Proof.
  split; [|split; [|split; [|split]]].
  - intros fuel n p ret s H. exact (Abc_NtkMiterProve_accounted fuel n p ret s H).
  - intros nIter s p r Hret.
    rewrite (stage_sat_undecided nIter s Hret). cbn [pParams]. fold p r.
    destruct (limit_reached _); cbn [ctrl_state pParams]; split; try reflexivity.
    + intros _. eauto.
    + discriminate.
  - intros nIter rv s r p HF HR Hret.
    rewrite (stage_fraiging_undecided nIter rv s r HF HR Hret). cbn [pParams]. fold p.
    eexists; split; [reflexivity|].
    destruct (limit_reached _); cbn [ctrl_state pParams]; split; try reflexivity.
    + intros _. eauto.
    + discriminate.
  - intros fuel n p HR HF. unfold Abc_NtkMiterProve.
    rewrite (truthy_zero _ HR), (truthy_zero _ HF). cbn [negb andb].
    unfold sat_only. eexists _, _. split; reflexivity.
  - exact stage_last_sat_params.
Qed.

(** ** The model *)

Lemma iteration_return (fuel : nat) (nIter ret : Z) s s' :
  iteration fuel nIter s = Ok (Return ret s') -> ret = -1.
Proof.
  unfold iteration, stage_sat.
  destruct (sat_ret _ >=? 0); [discriminate|].
  destruct (limit_reached _); [now intros [= <- _]|].
  intros H. apply bind_Ok in H. destruct H as ([rv2 s2] & _ & H).
  unfold stage_fraiging in H. destruct (truthy _); [|discriminate].
  apply bind_Ok in H. destruct H as (r & _ & H). cbv zeta in H.
  destruct (fr_ret r >=? 0); [discriminate|].
  destruct (limit_reached _); [now injection H as <- _ | discriminate].
Qed.

Lemma for_loop_return (fuel n : nat) :
  forall (nIter : Z) (rv : option Z) s (ret : Z) s',
    for_loop fuel n nIter rv s = Ok (inl (ret, s')) -> ret = -1.
Proof.
  induction n as [|n IH]; intros nIter rv s ret s' H; [discriminate|].
  cbn [for_loop] in H. apply bind_Ok in H. destruct H as (c & Hc & H).
  destruct c as [r s1 | r s1 | r s1].
  - eapply IH; eassumption.
  - discriminate.
  - injection H as <- _. eapply iteration_return; eassumption.
Qed.

Lemma assign_model_zeros (s : State) :
  pModel (pNtk s) = None ->
  assign_model 0 s =
  (0, with_ntk (set_pModel (pNtk s)
                  (Some (repeat 0 (Z.to_nat (Abc_NtkCiNum (ntkAig (pNtk s))))))) s).
Proof. intros H. unfold assign_model. rewrite H. reflexivity. Qed.

Lemma assign_model_some (rv : Z) s :
  fst (assign_model rv s) = 0 -> pModel (pNtk (snd (assign_model rv s))) <> None.
Proof.
  unfold assign_model. destruct (pModel (pNtk s)) eqn:HM.
  - cbn. intros _. congruence.
  - destruct (rv =? 0) eqn:Z0; cbn; [discriminate | zbool; lia].
Qed.

Lemma assign_model_kept (rv : Z) s (m : list Z) :
  pModel (pNtk s) = Some m -> assign_model rv s = (rv, s).
Proof. intros H. unfold assign_model. rewrite H. reflexivity. Qed.

(** Past the SAT-only mode, a call that returns 0 has gone through the
    assignment of the model. *)
Lemma prove_from_model (fuel n : nat) (nIter : Z) (rv : option Z) s s' :
  prove_from fuel n nIter rv s = Ok (0, s') -> pModel (pNtk s') <> None.
Proof.
  unfold prove_from. intros H. apply bind_Ok in H. destruct H as (x & Hx & H).
  destruct x as [[r s1] | [[r|] s1]].
  - injection H as -> _. apply for_loop_return in Hx. discriminate.
  - unfold after_loop in H.
    destruct (stage_bdd r s1) as [r1 s2].
    destruct (stage_last_sat r1 s2) as [r2 s3].
    injection H as H. pose proof (assign_model_some r2 s3) as A.
    rewrite H in A. now apply A.
  - discriminate.
Qed.


End Properties.

(** * The prover on the concrete instance *)

(** C1. The rewriting stage finds the constant in the first iteration
    (the network goes from 1 to 0 with the first rewrite) and the loop is
    not left.  With fraiging on, the fraiging call of the same iteration
    follows; with fraiging off and two iterations allowed, the second
    iteration follows with its SAT call and its rewriting. *)
Theorem rewriting_verdict_stays_in_loop :
  (exists s,
     Abc_NtkMiterProve 1 (Toy.ntk 1) (Toy.params 1 1 0 1 3 0) = Ok (0, s) /\
     trace s = [EvSat 10 0 true (-1) 5 7; EvTransform Rewrite; EvFraig 4 0 0 3 4]) /\
  (exists s,
     Abc_NtkMiterProve 1 (Toy.ntk 1) (Toy.params 0 1 0 2 3 0) = Ok (0, s) /\
     trace s = [EvSat 10 0 true (-1) 5 7; EvTransform Rewrite;
                EvSat 20 0 true (-1) 5 7; EvTransform Rewrite]) /\
  Abc_NtkMiterIsConstant (Abc_NtkRewrite (Toy.ntk 1)) = 0.
Proof.
  split; [|split]; [eexists; split; vm_compute; reflexivity ..| reflexivity].
Qed.

(* The SAT-only mode on a network the solver gives up on. *)
Lemma sat_only_mode_witness :
  Abc_NtkMiterProve 0 (Toy.ntk 7) (Toy.params 0 0 0 2 3 1) =
  Ok (-1, {| pNtk := Toy.ntk 7;
             pParams := Toy.params 0 0 0 2 3 1;
             trace := [EvSat 50 0 false (-1) 5 7] |}).
Proof.
  exact (sat_only_mode 0 (Toy.ntk 7) (Toy.params 0 0 0 2 3 1) eq_refl eq_refl).
Defined.

(** C2, as stated, fails.  In the SAT-only mode the solver spends 5
    conflicts against a global limit of 1 and the total stays 0; after the
    loop the last SAT attempt spends 5 more against a limit of 9 and the
    total stays at the 8 of the loop. *)
Lemma uncharged_sat_calls :
  (exists s,
     Abc_NtkMiterProve 0 (Toy.ntk 7) (Toy.params 0 0 0 2 3 1) = Ok (-1, s) /\
     trace s = [EvSat 50 0 false (-1) 5 7] /\
     nTotalBacktrackLimit (pParams s) = 1 /\
     nTotalBacktracksMade (pParams s) = 0) /\
  (exists s,
     Abc_NtkMiterProve 1 (Toy.ntk 50) (Toy.params 1 1 1 1 1 9) = Ok (-1, s) /\
     trace s = [EvSat 10 0 true (-1) 5 7; EvTransform Rewrite; EvFraig 4 0 (-1) 3 4;
                EvCollapse 10 1 false; EvSat 50 0 false (-1) 5 7] /\
     nTotalBacktrackLimit (pParams s) = 9 /\
     nTotalBacktracksMade (pParams s) = 8).
Proof.
  split; eexists; (split; [vm_compute; reflexivity|]); repeat split.
Qed.

(* The first SAT call of the loop is charged and tested; the SAT-only call
   is not. *)
Lemma totals_accounting_witness :
  let s := {| pNtk := Toy.ntk 5; pParams := Toy.params 1 0 1 3 1 8; trace := [] |} in
  (pParams (ctrl_state (stage_sat 0 s)) = add_totals (pParams s) 5 7 /\
   (limit_reached (add_totals (pParams s) 5 7) = true ->
    exists s', stage_sat 0 s = Return (-1) s')) /\
  (exists (ret : Z) s',
     Abc_NtkMiterProve 0 (Toy.ntk 7) (Toy.params 0 0 0 2 3 1) = Ok (ret, s') /\
     pParams s' = Toy.params 0 0 0 2 3 1).
Proof.
  split.
  - exact (proj1 (proj2 totals_accounting) 0
             {| pNtk := Toy.ntk 5; pParams := Toy.params 1 0 1 3 1 8; trace := [] |}
             eq_refl).
  - exact (proj1 (proj2 (proj2 (proj2 totals_accounting)))
             0%nat (Toy.ntk 7) (Toy.params 0 0 0 2 3 1) eq_refl eq_refl).
Defined.

(** C3, as stated, fails.  After one iteration without a verdict the
    network collapses to one of 4 nodes, which is not the single zero
    node: the call returns 0 (SAT), and the collapse is the last call it
    made. *)
Lemma bdd_built_nonzero_returns_sat :
  exists s,
    Abc_NtkMiterProve 1 (Toy.ntk 5) (Toy.params 1 1 1 1 1 0) = Ok (0, s) /\
    trace s = [EvSat 10 0 true (-1) 5 7; EvTransform Rewrite; EvFraig 4 0 (-1) 3 4;
               EvCollapse 10 1 true] /\
    Abc_NtkNodeNum (ntkAig (pNtk s)) = 4 /\
    pModel (pNtk s) = Some [0; 0].
Proof.
  eexists; split; [vm_compute; reflexivity|]. repeat split.
Qed.

(* A collapse that succeeds with 4 nodes. *)
Lemma bdd_built_decides_witness :
  let s := {| pNtk := Toy.ntk 4; pParams := Toy.params 1 1 1 1 1 0; trace := [] |} in
  let s' := {| pNtk := Toy.ntk 4;
               pParams := Toy.params 1 1 1 1 1 0;
               trace := [EvCollapse 10 1 true] |} in
  exists verdict,
    stage_bdd (-1) s = (verdict, s') /\
    (verdict = 1 <-> Abc_NtkNodeNum (ntkAig (Toy.ntk 4)) = 1 /\
                     po_is_logic_zero (Toy.ntk 4) = true) /\
    (verdict = 0 <-> ~ (Abc_NtkNodeNum (ntkAig (Toy.ntk 4)) = 1 /\
                        po_is_logic_zero (Toy.ntk 4) = true)) /\
    after_loop (Some (-1)) s = Ok (assign_model verdict s').
Proof.
  exact (bdd_built_decides (-1)
           {| pNtk := Toy.ntk 4; pParams := Toy.params 1 1 1 1 1 0; trace := [] |}
           (Toy.ntk 4) eq_refl ltac:(discriminate) eq_refl).
Defined.

(* Four steps on a network that is ten steps away from a constant. *)
Lemma rewriting_loop_budget_witness :
  let s := {| pNtk := Toy.ntk 10; pParams := Toy.params 1 1 1 1 4 0; trace := [] |} in
  exists k : nat,
    (1 <= k)%nat /\ Z.of_nat k <= 4 /\
    rewriting_loop 2 4 s =
    Ok (Abc_NtkMiterIsConstant (transformed (rotation k Rewrite) (pNtk s)),
        {| pNtk := transformed (rotation k Rewrite) (pNtk s);
           pParams := pParams s;
           trace := trace s ++ map EvTransform (rotation k Rewrite) |}) /\
    (forall j : nat, (1 <= j < k)%nat ->
       Abc_NtkMiterIsConstant (transformed (rotation j Rewrite) (pNtk s)) < 0) /\
    (Abc_NtkMiterIsConstant (transformed (rotation k Rewrite) (pNtk s)) < 0 ->
     Z.of_nat k = 4).
Proof.
  exact (rewriting_loop_budget 2 4
           {| pNtk := Toy.ntk 10; pParams := Toy.params 1 1 1 1 4 0; trace := [] |}
           eq_refl ltac:(lia)).
Defined.

(* A limit of 5 conflicts is reached by the first SAT call; a limit of 8 by
   the first fraiging call. *)
Lemma global_limit_abort_witness :
  prove_from 1 3 0 None
    {| pNtk := Toy.ntk 5; pParams := Toy.params 1 1 1 3 1 5; trace := [] |} =
  Ok (-1, {| pNtk := Toy.ntk 5;
             pParams := add_totals (Toy.params 1 1 1 3 1 5) 5 7;
             trace := [EvSat 10 0 true (-1) 5 7] |})
  /\
  prove_from 1 3 0 None
    {| pNtk := Toy.ntk 5; pParams := Toy.params 1 0 1 3 1 8; trace := [] |} =
  Ok (-1, {| pNtk := Toy.ntk 5;
             pParams := add_totals (add_totals (Toy.params 1 0 1 3 1 8) 5 7) 3 4;
             trace := [EvSat 10 0 true (-1) 5 7; EvFraig 4 0 (-1) 3 4] |}).
Proof.
  split.
  - exact (proj1 (global_limit_abort 1 2 0 None
                    {| pNtk := Toy.ntk 5; pParams := Toy.params 1 1 1 3 1 5; trace := [] |})
             eq_refl eq_refl).
  - exact (proj2 (global_limit_abort 1 2 0 None
                    {| pNtk := Toy.ntk 5; pParams := Toy.params 1 0 1 3 1 8; trace := [] |})
             (-1) (-1)
             {| pNtk := Toy.ntk 5;
                pParams := add_totals (Toy.params 1 0 1 3 1 8) 5 7;
                trace := [EvSat 10 0 true (-1) 5 7] |}
             {| pNtk := Toy.ntk 5;
                pParams := add_totals (Toy.params 1 0 1 3 1 8) 5 7;
                trace := [EvSat 10 0 true (-1) 5 7] |}
             {| fr_ntk := Toy.ntk 5; fr_ret := -1; fr_fails := 0; fr_confs := 3; fr_insps := 4 |}
             eq_refl eq_refl ltac:(discriminate) eq_refl eq_refl eq_refl).
Defined.



(* A network of 50 nodes against a size limit of 10. *)
Lemma bdd_limit_exceeded_witness :
  let s := {| pNtk := Toy.ntk 50; pParams := Toy.params 1 1 1 1 1 0; trace := [] |} in
  (fst (stage_bdd (-1) s) = -1 /\ pNtk (snd (stage_bdd (-1) s)) = Toy.ntk 50) /\
  after_loop (Some (-1)) s =
  Ok (assign_model (-1)
        {| pNtk := Toy.ntk 50;
           pParams := Toy.params 1 1 1 1 1 0;
           trace := [EvCollapse 10 1 false; EvSat 50 0 false (-1) 5 7] |}).
Proof.
  exact (bdd_limit_exceeded (-1)
           {| pNtk := Toy.ntk 50; pParams := Toy.params 1 1 1 1 1 0; trace := [] |}
           eq_refl ltac:(discriminate) eq_refl).
Defined.

(* No iteration allowed, and one. *)
Lemma iteration_cap_and_RetValue_witness :
  Abc_NtkMiterProve 5 (Toy.ntk 50) (Toy.params 1 1 1 0 1 0) = Fault UninitRead /\
  Abc_NtkMiterProve 5 (Toy.ntk 50) (Toy.params 1 1 1 1 1 0) <> Fault UninitRead.
Proof.
  split.
  - refine (proj1 (iteration_cap_and_RetValue 5 (Toy.ntk 50) (Toy.params 1 1 1 0 1 0) _) _).
    + left. cbn. lia.
    + cbn. lia.
  - refine (proj1 (proj2 (iteration_cap_and_RetValue 5 (Toy.ntk 50) (Toy.params 1 1 1 1 1 0) _) _)).
    + left. cbn. lia.
    + cbn. lia.
Defined.

(** * More on the control flow *)

Section Paths.

Context {Aig Fman C_float C_double : Type}.
Context {M : Libm C_float C_double} {E : Engines Aig Fman}.

Local Abbreviation Ntk := (Abc_Ntk_t Aig).
Local Abbreviation Params := (Prove_Params_t C_float).
Local Abbreviation State := (@state Aig C_float).

Implicit Types (s : State) (p : Params) (n : Ntk).

(** ** The states after a call *)

Lemma sat_state_trace (nIter : Z) s :
  trace (sat_state nIter s) = trace s ++ [sat_event nIter s].
Proof. reflexivity. Qed.

Lemma sat_state_params (nIter : Z) s : pParams (sat_state nIter s) = pParams s.
Proof. reflexivity. Qed.

Lemma sat_state_ntk (nIter : Z) s : pNtk (sat_state nIter s) = sat_ntk (sat_call nIter s).
Proof. reflexivity. Qed.

Lemma fraig_state_trace (nIter : Z) s (f : fraig_result Aig) :
  trace (fraig_state nIter s f) = trace s ++ [fraig_event nIter s f].
Proof. reflexivity. Qed.

Lemma fraig_state_params (nIter : Z) s (f : fraig_result Aig) :
  pParams (fraig_state nIter s f) = pParams s.
Proof. reflexivity. Qed.

Lemma account_trace (a b : Z) s : trace (account a b s) = trace s.
Proof. reflexivity. Qed.

Lemma account_params (a b : Z) s : pParams (account a b s) = add_totals (pParams s) a b.
Proof. reflexivity. Qed.

Lemma account_ntk (a b : Z) s : pNtk (account a b s) = pNtk s.
Proof. reflexivity. Qed.

Lemma after_transforms_trace (ts : list transform) s :
  trace (after_transforms ts s) = trace s ++ map EvTransform ts.
Proof. reflexivity. Qed.

Lemma after_transforms_params (ts : list transform) s :
  pParams (after_transforms ts s) = pParams s.
Proof. reflexivity. Qed.

(** ** Every run of the body follows one of the paths *)

Lemma stage_sat_path (nIter : Z) s :
  let r := sat_call nIter s in
  stage_sat nIter s =
  if sat_ret r >=? 0 then Break (sat_ret r) (sat_state nIter s)
  else if limit_reached (add_totals (pParams s) (sat_confs r) (sat_insps r))
       then Return (-1) (account (sat_confs r) (sat_insps r) (sat_state nIter s))
       else Continue (sat_ret r) (account (sat_confs r) (sat_insps r) (sat_state nIter s)).
Proof. reflexivity. Qed.

Lemma stage_rewriting_path (fuel : nat) (nIter rv1 rv2 : Z) s1 s2 :
  stage_rewriting fuel nIter rv1 s1 = Ok (rv2, s2) ->
  rewriting_path s1 rv1 rv2 s2.
Proof.
  unfold stage_rewriting. destruct (truthy (fUseRewriting (pParams s1))) eqn:T.
  - intros H. apply rewriting_loop_inv in H. destruct H as (k & Hk & -> & ->).
    apply Rw_on; [|exact Hk]. unfold truthy in T. zbool. exact T.
  - intros [= <- <-]. apply Rw_off. unfold truthy in T.
    apply negb_false_iff in T. now apply Z.eqb_eq.
Qed.

Lemma stage_fraiging_path (nIter rv2 : Z) s2 (c : ctrl State) :
  stage_fraiging nIter rv2 s2 = Ok c ->
  fraiging_path nIter s2 rv2 c.
Proof.
  unfold stage_fraiging. destruct (truthy (fUseFraiging (pParams s2))) eqn:T.
  - assert (HF : fUseFraiging (pParams s2) <> 0) by (unfold truthy in T; zbool; exact T).
    intros H. apply bind_Ok in H. destruct H as (f & Hf & H). cbv zeta in H.
    destruct (fr_ret f >=? 0) eqn:G.
    + injection H as <-. apply Fr_decided; [exact HF | exact Hf | zbool; lia].
    + change (pParams (account (fr_confs f) (fr_insps f)
                (emit (EvFraig (int_limit (nFraigingLimitStart (pParams s2))
                                          (nFraigingLimitMulti (pParams s2)) nIter)
                               (inspect_limit (pParams s2))
                               (fr_ret f) (fr_confs f) (fr_insps f))
                      (with_ntk (fr_ntk f) s2))))
        with (add_totals (pParams s2) (fr_confs f) (fr_insps f)) in H.
      destruct (limit_reached _) eqn:L; injection H as <-.
      * apply Fr_limit; [exact HF | exact Hf | zbool; lia | exact L].
      * apply Fr_undecided; [exact HF | exact Hf | zbool; lia | exact L].
  - intros [= <-]. apply Fr_off. unfold truthy in T.
    apply negb_false_iff in T. now apply Z.eqb_eq.
Qed.

Lemma iteration_path_of (fuel : nat) (nIter : Z) s (c : ctrl State) :
  iteration fuel nIter s = Ok c -> iteration_path nIter s c.
Proof.
  unfold iteration. rewrite stage_sat_path. cbv zeta.
  destruct (sat_ret (sat_call nIter s) >=? 0) eqn:G.
  - intros [= <-]. apply It_sat_decided. zbool; lia.
  - destruct (limit_reached _) eqn:L.
    + intros [= <-]. apply It_sat_limit; [zbool; lia | exact L].
    + intros H. apply bind_Ok in H. destruct H as ([rv2 s2] & Hrw & H).
      eapply It_go_on; [zbool; lia | exact L | |].
      * eapply stage_rewriting_path; exact Hrw.
      * apply stage_fraiging_path; exact H.
Qed.

(** ** Invariants of the loop *)

(** [P n nIter rv s] is to hold at the head of the loop with [n] iterations
    to go, [Q] where the loop is left, [J] where the function returns from
    inside the loop. *)
Lemma for_loop_invariant
      (P : nat -> Z -> option Z -> State -> Prop)
      (Q : option Z -> State -> Prop) (J : State -> Prop) :
  (forall (nIter : Z) (rv : option Z) s, P O nIter rv s -> Q rv s) ->
  (forall (k : nat) (nIter : Z) (rv : option Z) s (c : ctrl State),
     P (S k) nIter rv s ->
     iteration_path nIter s c ->
     match c with
     | Continue r s' => P k (nIter + 1) (Some r) s'
     | Break r s' => Q (Some r) s'
     | Return _ s' => J s'
     end) ->
  forall (fuel k : nat) (nIter : Z) (rv : option Z) s x,
    P k nIter rv s ->
    for_loop fuel k nIter rv s = Ok x ->
    match x with
    | inl (_, s') => J s'
    | inr (rv', s') => Q rv' s'
    end.
Proof.
  intros Hexit Hbody fuel k.
  induction k as [|k IH]; intros nIter rv s x HP H.
  - injection H as <-. eapply Hexit; exact HP.
  - cbn [for_loop] in H. apply bind_Ok in H. destruct H as (c & Hc & H).
    apply iteration_path_of in Hc.
    pose proof (Hbody k nIter rv s c HP Hc) as Hstep.
    destruct c as [r s1 | r s1 | r s1].
    + eapply IH; eassumption.
    + now injection H as <-.
    + now injection H as <-.
Qed.

(** The call, when it runs the loop. *)
Lemma Abc_NtkMiterProve_loop (fuel : nat) n p :
  fUseRewriting p <> 0 \/ fUseFraiging p <> 0 ->
  Abc_NtkMiterProve fuel n p =
  prove_from fuel (Z.to_nat (nItersMax p)) 0 None
    {| pNtk := n; pParams := p; trace := [] |}.
Proof.
  intros Hmode. unfold Abc_NtkMiterProve.
  destruct Hmode as [H | H]; rewrite (truthy_nonzero _ H); cbn [negb andb];
    [reflexivity | now rewrite andb_false_r].
Qed.

(** ** From the loop to the return *)

Lemma after_loop_path_of (rv : Z) s (x : Z * State) :
  after_loop (Some rv) s = Ok x ->
  exists (r1 : Z) (s1 : State), after_loop_path rv s r1 s1 /\ x = assign_model r1 s1.
Proof.
  unfold after_loop, stage_bdd.
  destruct (rv <? 0) eqn:L.
  - assert (Hrv : rv < 0) by (zbool; exact L).
    destruct (truthy (fUseBdds (pParams s))) eqn:T; cbn [andb].
    + assert (HB : fUseBdds (pParams s) <> 0) by (unfold truthy in T; zbool; exact T).
      destruct (Abc_NtkCollapse _ _ _) as [n|] eqn:HC.
      * rewrite stage_last_sat_skipped by (destruct (_ && _); lia).
        intros [= <-]. eexists _, _. split; [|reflexivity].
        now apply Al_bdd.
      * unfold stage_last_sat. rewrite L. intros [= <-].
        eexists _, _. split; [|reflexivity].
        now apply (Al_bdd_sat rv s).
    + assert (HB : fUseBdds (pParams s) = 0)
        by (unfold truthy in T; apply negb_false_iff in T; now apply Z.eqb_eq).
      unfold stage_last_sat. rewrite L. intros [= <-].
      eexists _, _. split; [|reflexivity]. now apply Al_sat.
  - cbn [andb]. rewrite stage_last_sat_skipped by (zbool; lia).
    intros [= <-]. eexists _, _. split; [|reflexivity]. apply Al_decided. zbool; lia.
Qed.

Lemma assign_model_trace (rv : Z) s : trace (snd (assign_model rv s)) = trace s.
Proof.
  unfold assign_model. destruct (pModel (pNtk s)); [reflexivity|].
  destruct (rv =? 0); reflexivity.
Qed.

Lemma assign_model_params (rv : Z) s : pParams (snd (assign_model rv s)) = pParams s.
Proof.
  unfold assign_model. destruct (pModel (pNtk s)); [reflexivity|].
  destruct (rv =? 0); reflexivity.
Qed.

(** An invariant of the loop carried to the result: [J] at a return from
    inside the loop, [Q] at the end of the loop, [R] of the value and the
    state returned. *)
Lemma prove_from_invariant
      (P : nat -> Z -> option Z -> State -> Prop)
      (Q : option Z -> State -> Prop) (J : State -> Prop)
      (R : Z -> State -> Prop) :
  (forall (nIter : Z) (rv : option Z) s, P O nIter rv s -> Q rv s) ->
  (forall (k : nat) (nIter : Z) (rv : option Z) s (c : ctrl State),
     P (S k) nIter rv s ->
     iteration_path nIter s c ->
     match c with
     | Continue r s' => P k (nIter + 1) (Some r) s'
     | Break r s' => Q (Some r) s'
     | Return _ s' => J s'
     end) ->
  (forall s, J s -> R (-1) s) ->
  (forall (rv : Z) s (r1 : Z) (s1 : State),
     Q (Some rv) s ->
     after_loop_path rv s r1 s1 ->
     R (fst (assign_model r1 s1)) (snd (assign_model r1 s1))) ->
  forall (fuel k : nat) (nIter : Z) (rv : option Z) s (ret : Z) (s' : State),
    P k nIter rv s ->
    prove_from fuel k nIter rv s = Ok (ret, s') ->
    R ret s'.
Proof.
  intros Hexit Hbody HJ HQ fuel k nIter rv s ret s' HP H.
  unfold prove_from in H. apply bind_Ok in H. destruct H as (x & Hx & H).
  pose proof (for_loop_invariant P Q J Hexit Hbody fuel k nIter rv s x HP Hx) as Hinv.
  destruct x as [[r s1] | [[r|] s1]].
  - injection H as <- <-. apply for_loop_return in Hx. subst r. now apply HJ.
  - apply after_loop_path_of in H. destruct H as (r1 & s2 & Hpath & Heq).
    pose proof (HQ r s1 r1 s2 Hinv Hpath) as HR.
    rewrite <- Heq in HR. exact HR.
  - discriminate.
Qed.

Ltac unpath :=
  unfold last_sat_state, fraig_state, sat_state, after_transforms, account, emit, with_ntk in *;
  cbn [trace pParams pNtk] in *.

Lemma Forall_transforms (R : event -> Prop) (ts : list transform) :
  (forall t, R (EvTransform t)) -> Forall R (map EvTransform ts).
Proof. intros H. induction ts; cbn; constructor; auto. Qed.

Lemma Forall_snoc (R : event -> Prop) (tr : list event) (e : event) :
  Forall R tr -> R e -> Forall R (tr ++ [e]).
Proof. intros H He. apply Forall_app. split; [exact H | constructor; [exact He | constructor]]. Qed.

(** ** The shape of a trace *)

(** X8. A call that runs the loop leaves a trace made of events of the
    loop followed by one of four endings, and the value returned goes with
    the ending: nothing more when the loop gave a verdict or reached a
    global limit, a successful collapse with 0 or 1, or the last SAT call
    (alone or after a collapse that built nothing) with that call's
    value.  So there is at most one collapse and one last SAT call, both
    after the loop, and no SAT call follows a collapse that built a
    network. *)
Theorem trace_shape (fuel : nat) n p (ret : Z) s :
  fUseRewriting p <> 0 \/ fUseFraiging p <> 0 ->
  Abc_NtkMiterProve fuel n p = Ok (ret, s) ->
  exists pre tail : list event,
    trace s = pre ++ tail /\
    Forall loop_event pre /\
    tail_shape (limit_reached (pParams s)) ret tail.
Proof.
  intros Hmode H. rewrite (Abc_NtkMiterProve_loop fuel n p Hmode) in H.
  revert H.
  apply (prove_from_invariant
           (fun _ _ _ s => Forall loop_event (trace s))
           (fun rv s => Forall loop_event (trace s))
           (fun s => Forall loop_event (trace s) /\ limit_reached (pParams s) = true)
           (fun ret s => exists pre tail : list event,
                trace s = pre ++ tail /\ Forall loop_event pre /\
                tail_shape (limit_reached (pParams s)) ret tail)).
  - auto.
  - intros k nIter rv s0 c HP Hpath.
    destruct Hpath as [Hd | Hu Hlim | rv2 s2 c Hu Hlim Hrw Hfr].
    + unpath. apply Forall_snoc; [exact HP | reflexivity].
    + unpath. split; [apply Forall_snoc; [exact HP | reflexivity] | exact Hlim].
    + assert (H2 : Forall loop_event (trace s2)).
      { destruct Hrw; unpath.
        - apply Forall_snoc; [exact HP | reflexivity].
        - apply Forall_app. split; [apply Forall_snoc; [exact HP | reflexivity]|].
          apply Forall_transforms. intros t; exact I. }
      destruct Hfr as [Hoff | f HF Hf Hdec | f HF Hf Hund Hl | f HF Hf Hund Hl]; unpath.
      * exact H2.
      * apply Forall_snoc; [exact H2 | exact I].
      * split; [apply Forall_snoc; [exact H2 | exact I] | exact Hl].
      * apply Forall_snoc; [exact H2 | exact I].
  - intros s0 [HF Hl]. exists (trace s0), []. rewrite app_nil_r.
    split; [reflexivity|]. split; [exact HF|]. left. split; [reflexivity|].
    right. split; [reflexivity | exact Hl].
  - intros rv s0 r1 s1 HQ Hpath.
    rewrite assign_model_ret, assign_model_trace, assign_model_params.
    destruct Hpath as [Hd | m Hu HB HC | Hu HB | Hu HB HC]; unpath.
    + exists (trace s0), []. rewrite app_nil_r.
      split; [reflexivity|]. split; [exact HQ|]. left. split; [reflexivity|]. now left.
    + exists (trace s0), [collapse_event s0 true].
      split; [reflexivity|]. split; [exact HQ|]. right; left.
      eexists _, _. split; [reflexivity|]. destruct (_ && _); lia.
    + exists (trace s0), [last_sat_event s0].
      split; [reflexivity|]. split; [exact HQ|]. right; right; left.
      eexists _, _, _, _. reflexivity.
    + exists (trace s0), [collapse_event s0 false;
                          last_sat_event {| pNtk := pNtk s0; pParams := pParams s0;
                                            trace := trace s0 ++ [collapse_event s0 false] |}].
      split; [now rewrite <- app_assoc|]. split; [exact HQ|]. right; right; right.
      eexists _, _, _, _, _, _. reflexivity.
  - constructor.
Qed.

(** The call, in either mode. *)
Lemma Abc_NtkMiterProve_modes (fuel : nat) n p :
  (fUseRewriting p = 0 /\ fUseFraiging p = 0 /\
   Abc_NtkMiterProve fuel n p = Ok (sat_only {| pNtk := n; pParams := p; trace := [] |}))
  \/
  ((fUseRewriting p <> 0 \/ fUseFraiging p <> 0) /\
   Abc_NtkMiterProve fuel n p =
   prove_from fuel (Z.to_nat (nItersMax p)) 0 None {| pNtk := n; pParams := p; trace := [] |}).
Proof.
  destruct (Z.eq_dec (fUseRewriting p) 0) as [HR | HR];
    [destruct (Z.eq_dec (fUseFraiging p) 0) as [HF | HF]|].
  - left. split; [exact HR|]. split; [exact HF|].
    unfold Abc_NtkMiterProve. now rewrite (truthy_zero _ HR), (truthy_zero _ HF).
  - right. split; [now right|]. apply Abc_NtkMiterProve_loop. now right.
  - right. split; [now left|]. apply Abc_NtkMiterProve_loop. now left.
Qed.

(** ** Engines that are switched off *)

(** X4. Whatever the call does, it applies no transformation when
    [fUseRewriting] is 0, makes no fraiging call when [fUseFraiging] is 0
    and attempts no collapse when [fUseBdds] is 0. *)
Theorem disabled_engines_not_called (fuel : nat) n p (ret : Z) s :
  Abc_NtkMiterProve fuel n p = Ok (ret, s) ->
  Forall (enabled_event p) (trace s).
Proof.
  destruct (Abc_NtkMiterProve_modes fuel n p) as [(_ & _ & ->) | (_ & ->)].
  - intros [= _ <-]. repeat constructor.
  - apply (prove_from_invariant
             (fun _ _ _ s =>
                (fUseRewriting (pParams s) = fUseRewriting p /\
                 fUseFraiging (pParams s) = fUseFraiging p /\
                 fUseBdds (pParams s) = fUseBdds p) /\
                Forall (enabled_event p) (trace s))
             (fun _ s =>
                (fUseRewriting (pParams s) = fUseRewriting p /\
                 fUseFraiging (pParams s) = fUseFraiging p /\
                 fUseBdds (pParams s) = fUseBdds p) /\
                Forall (enabled_event p) (trace s))
             (fun s => Forall (enabled_event p) (trace s))
             (fun _ s => Forall (enabled_event p) (trace s))).
    + auto.
    + intros k nIter rv s0 c [Hsw HP] Hpath.
      destruct Hpath as [Hd | Hu Hlim | rv2 s2 c Hu Hlim Hrw Hfr].
      * unpath. split; [exact Hsw | apply Forall_snoc; [exact HP | exact I]].
      * unpath. apply Forall_snoc; [exact HP | exact I].
      * assert (H2 : (fUseRewriting (pParams s2) = fUseRewriting p /\
                      fUseFraiging (pParams s2) = fUseFraiging p /\
                      fUseBdds (pParams s2) = fUseBdds p) /\
                     Forall (enabled_event p) (trace s2)).
        { destruct Hrw as [Hoff | j Hon Hj]; unpath.
          - split; [exact Hsw | apply Forall_snoc; [exact HP | exact I]].
          - split; [exact Hsw|]. apply Forall_app.
            split; [apply Forall_snoc; [exact HP | exact I]|].
            apply Forall_transforms. intros t. cbn. destruct Hsw as (<- & _). exact Hon. }
        destruct H2 as [Hsw2 H2].
        destruct Hfr as [Hoff | f HF Hf Hdec | f HF Hf Hund Hl | f HF Hf Hund Hl]; unpath.
        -- split; [exact Hsw2 | exact H2].
        -- split; [exact Hsw2|]. apply Forall_snoc; [exact H2|].
           cbn. destruct Hsw2 as (_ & <- & _). exact HF.
        -- apply Forall_snoc; [exact H2|].
           cbn. destruct Hsw2 as (_ & <- & _). exact HF.
        -- split; [exact Hsw2|]. apply Forall_snoc; [exact H2|].
           cbn. destruct Hsw2 as (_ & <- & _). exact HF.
    + auto.
    + intros rv s0 r1 s1 [Hsw HQ] Hpath. rewrite assign_model_trace.
      destruct Hpath as [Hd | m Hu HB HC | Hu HB | Hu HB HC]; unpath.
      * exact HQ.
      * apply Forall_snoc; [exact HQ|]. cbn. destruct Hsw as (_ & _ & <-). exact HB.
      * apply Forall_snoc; [exact HQ | exact I].
      * apply Forall_snoc; [|exact I]. apply Forall_snoc; [exact HQ|].
        cbn. destruct Hsw as (_ & _ & <-). exact HB.
    + split; [auto | constructor].
Qed.

(** ** The totals only grow *)

Lemma Abc_NtkMiterFraig_stats n (a b : Z) (f : fraig_result Aig) :
  Abc_NtkMiterFraig n a b = Ok f ->
  exists m,
    fr_ret f = Fraig_ManCheckMiter m /\
    fr_confs f = Fraig_ManReadConflicts m /\
    fr_insps f = Fraig_ManReadInspects m.
Proof.
  unfold Abc_NtkMiterFraig.
  destruct (_ =? 0); [discriminate | intros [= <-]; cbn; eauto].
Qed.

Lemma total_nonneg (tr : list event) :
  Forall (fun e => 0 <= charged_confs e /\ 0 <= charged_insps e) tr ->
  0 <= total_confs tr /\ 0 <= total_insps tr.
Proof.
  unfold total_confs, total_insps.
  induction 1 as [|e tr [Hc Hi] _ [IHc IHi]]; cbn [fold_right]; lia.
Qed.

Lemma sat_event_nonneg (nIter : Z) s :
  engines_nonneg ->
  0 <= charged_confs (sat_event nIter s) /\ 0 <= charged_insps (sat_event nIter s).
Proof.
  intros [Hsat _]. unfold sat_event, sat_call. cbn.
  destruct (Hsat (pNtk s) (sat_limit_at (pParams s) nIter) (inspect_limit (pParams s))).
  destruct (_ <? 0); lia.
Qed.

Lemma fraig_event_nonneg (nIter : Z) s (f : fraig_result Aig) :
  engines_nonneg ->
  fraig_call nIter s = Ok f ->
  0 <= charged_confs (fraig_event nIter s f) /\ 0 <= charged_insps (fraig_event nIter s f).
Proof.
  intros [_ Hfr] Hf. apply Abc_NtkMiterFraig_stats in Hf.
  destruct Hf as (m & _ & Hc & Hi). destruct (Hfr m).
  unfold fraig_event. cbn. rewrite Hc, Hi. destruct (_ <? 0); lia.
Qed.

(** With such engines no call of a trace charges a negative amount. *)
Lemma trace_charges_nonneg (fuel : nat) n p (ret : Z) s :
  engines_nonneg ->
  Abc_NtkMiterProve fuel n p = Ok (ret, s) ->
  Forall (fun e => 0 <= charged_confs e /\ 0 <= charged_insps e) (trace s).
Proof.
  intros HE H.
  assert (HF : Forall (fun e => 0 <= charged_confs e /\ 0 <= charged_insps e) (trace s)).
  { revert H.
    destruct (Abc_NtkMiterProve_modes fuel n p) as [(_ & _ & ->) | (_ & ->)].
    - intros [= _ <-]. repeat constructor; cbn; lia.
    - apply (prove_from_invariant
               (fun _ _ _ s => Forall (fun e => 0 <= charged_confs e /\ 0 <= charged_insps e) (trace s))
               (fun _ s => Forall (fun e => 0 <= charged_confs e /\ 0 <= charged_insps e) (trace s))
               (fun s => Forall (fun e => 0 <= charged_confs e /\ 0 <= charged_insps e) (trace s))
               (fun _ s => Forall (fun e => 0 <= charged_confs e /\ 0 <= charged_insps e) (trace s))).
      + auto.
      + intros k nIter rv s0 c HP Hpath.
        pose proof (sat_event_nonneg nIter s0 HE) as Hsat.
        destruct Hpath as [Hd | Hu Hlim | rv2 s2 c Hu Hlim Hrw Hfr].
        * unpath. now apply Forall_snoc.
        * unpath. now apply Forall_snoc.
        * assert (H2 : Forall (fun e => 0 <= charged_confs e /\ 0 <= charged_insps e) (trace s2)).
          { destruct Hrw as [Hoff | j Hon Hj]; unpath.
            - now apply Forall_snoc.
            - apply Forall_app. split; [now apply Forall_snoc|].
              apply Forall_transforms. intros t. cbn. lia. }
          destruct Hfr as [Hoff | f HF Hf Hdec | f HF Hf Hund Hl | f HF Hf Hund Hl];
            try (pose proof (fraig_event_nonneg nIter s2 f HE Hf) as Hfe);
            unpath; try exact H2; now apply Forall_snoc.
      + auto.
      + intros rv s0 r1 s1 HQ Hpath. rewrite assign_model_trace.
        destruct Hpath as [Hd | m Hu HB HC | Hu HB | Hu HB HC]; unpath;
          repeat (apply Forall_snoc; [|cbn; lia]); exact HQ.
      + constructor. }
  exact HF.
Qed.

Lemma total_prefix (pre post : list event) :
  Forall (fun e => 0 <= charged_confs e /\ 0 <= charged_insps e) (pre ++ post) ->
  (0 <= total_confs pre <= total_confs (pre ++ post)) /\
  (0 <= total_insps pre <= total_insps (pre ++ post)).
Proof.
  intros H. apply Forall_app in H. destruct H as [Hpre Hpost].
  apply total_nonneg in Hpre, Hpost.
  rewrite total_confs_app, total_insps_app. lia.
Qed.

(** X5. With engines that report no negative consumption, and as long as
    the totals the call was given plus all it charges stay within
    [sint64], no addition to the totals overflows (every partial sum is
    within [sint64]) and the two running totals the call leaves are at
    least the totals it was given. *)
Theorem totals_never_decrease (fuel : nat) n p (ret : Z) s :
  engines_nonneg ->
  Abc_NtkMiterProve fuel n p = Ok (ret, s) ->
  in_sint64 (nTotalBacktracksMade p) ->
  in_sint64 (nTotalInspectsMade p) ->
  in_sint64 (nTotalBacktracksMade p + total_confs (trace s)) ->
  in_sint64 (nTotalInspectsMade p + total_insps (trace s)) ->
  (forall pre post : list event,
     trace s = pre ++ post ->
     in_sint64 (nTotalBacktracksMade p + total_confs pre) /\
     in_sint64 (nTotalInspectsMade p + total_insps pre)) /\
  nTotalBacktracksMade p <= nTotalBacktracksMade (pParams s) /\
  nTotalInspectsMade p <= nTotalInspectsMade (pParams s) /\
  in_sint64 (nTotalBacktracksMade (pParams s)) /\
  in_sint64 (nTotalInspectsMade (pParams s)).
Proof.
  intros HE H Rc Ri RcT RiT.
  pose proof (trace_charges_nonneg fuel n p ret s HE H) as HF.
  assert (Hfinal : pParams s = add_totals p (total_confs (trace s)) (total_insps (trace s)))
    by (apply Abc_NtkMiterProve_accounted in H; exact H).
  split.
  - intros pre post Hsplit. rewrite Hsplit in HF, RcT, RiT.
    destruct (total_prefix pre post HF) as [Hc Hi].
    unfold in_sint64 in *. lia.
  - destruct (total_nonneg _ HF) as [Hc Hi].
    rewrite Hfinal. cbn [nTotalBacktracksMade nTotalInspectsMade add_totals].
    unfold in_sint64 in *. lia.
Qed.

(** ** The inspect limit handed to the engines *)

Lemma inspect_budget_app (L made : Z) (a b : list event) :
  inspect_budget L made (a ++ b) <->
  inspect_budget L made a /\ inspect_budget L (made + total_insps a) b.
Proof.
  revert made. induction a as [|e a IH]; intros made; cbn [app inspect_budget].
  - unfold total_insps; cbn. rewrite Z.add_0_r. tauto.
  - rewrite IH. unfold total_insps; cbn [fold_right]. fold (total_insps a).
    rewrite Z.add_assoc. tauto.
Qed.

Lemma inspect_budget_transforms (L made : Z) (ts : list transform) :
  inspect_budget L made (map EvTransform ts).
Proof.
  revert made. induction ts as [|t ts IH]; intros made; cbn; [exact I | split; [exact I | apply IH]].
Qed.

Lemma inspect_budget_snoc (L made : Z) (tr : list event) (e : event) :
  inspect_budget L made tr ->
  match insp_limit_of e with
  | Some i => i = L - (made + total_insps tr) /\ 0 < i
  | None => True
  end ->
  inspect_budget L made (tr ++ [e]).
Proof.
  intros H He. apply inspect_budget_app. split; [exact H|].
  cbn. split; [exact He | exact I].
Qed.

Lemma inspect_limit_left p :
  nTotalInspectLimit p <> 0 ->
  inspect_limit p = nTotalInspectLimit p - nTotalInspectsMade p.
Proof. intros H. unfold inspect_limit. now rewrite (truthy_nonzero _ H). Qed.

Lemma limit_not_reached_inspects p :
  nTotalInspectLimit p <> 0 ->
  limit_reached p = false ->
  nTotalInspectsMade p < nTotalInspectLimit p.
Proof.
  intros HL H. unfold limit_reached in H. apply orb_false_iff in H. destruct H as [_ H].
  rewrite (truthy_nonzero _ HL) in H. cbn in H. zbool. lia.
Qed.

Lemma made_add_totals p (a b : Z) :
  nTotalInspectsMade (add_totals p a b) = nTotalInspectsMade p + b.
Proof. reflexivity. Qed.

Lemma limit_add_totals p (a b : Z) :
  nTotalInspectLimit (add_totals p a b) = nTotalInspectLimit p.
Proof. reflexivity. Qed.

(** What the loop keeps about the inspects: the limit is the one given, the
    total is what the trace charged, something is left, and every call so
    far was given what was left. *)
Lemma inspect_budget_step (L made0 : Z) s (e : event) n :
  L <> 0 ->
  nTotalInspectLimit (pParams s) = L ->
  nTotalInspectsMade (pParams s) = made0 + total_insps (trace s) ->
  nTotalInspectsMade (pParams s) < L ->
  inspect_budget L made0 (trace s) ->
  insp_limit_of e = Some (inspect_limit (pParams s)) ->
  inspect_budget L made0 (trace (emit e (with_ntk n s))).
Proof.
  intros HL HLs Hmade Hlt Hb He. unpath. apply inspect_budget_snoc; [exact Hb|].
  rewrite He, inspect_limit_left by congruence. lia.
Qed.

(** In the integers: with a global inspect limit set and not used up on
    entry, every SAT and fraiging call is given the limit minus the total
    charged so far, a positive number. *)
Lemma inspect_budget_in_Z (fuel : nat) n p (ret : Z) s :
  fUseRewriting p <> 0 \/ fUseFraiging p <> 0 ->
  nTotalInspectLimit p <> 0 ->
  nTotalInspectsMade p < nTotalInspectLimit p ->
  Abc_NtkMiterProve fuel n p = Ok (ret, s) ->
  inspect_budget (nTotalInspectLimit p) (nTotalInspectsMade p) (trace s).
Proof.
  intros Hmode HL Hlt H. rewrite (Abc_NtkMiterProve_loop fuel n p Hmode) in H.
  revert H.
  set (L := nTotalInspectLimit p) in *. set (made0 := nTotalInspectsMade p) in *.
  apply (prove_from_invariant
           (fun _ _ _ s =>
              nTotalInspectLimit (pParams s) = L /\
              nTotalInspectsMade (pParams s) = made0 + total_insps (trace s) /\
              nTotalInspectsMade (pParams s) < L /\
              inspect_budget L made0 (trace s))
           (fun _ s =>
              nTotalInspectLimit (pParams s) = L /\
              nTotalInspectsMade (pParams s) = made0 + total_insps (trace s) /\
              nTotalInspectsMade (pParams s) < L /\
              inspect_budget L made0 (trace s))
           (fun s => inspect_budget L made0 (trace s))
           (fun _ s => inspect_budget L made0 (trace s))).
  - auto.
  - intros k nIter rv s0 c (HLs & Hmade & Hleft & Hb) Hpath.
    assert (Hsat : inspect_budget L made0 (trace (sat_state nIter s0)))
      by (apply inspect_budget_step; auto).
    destruct Hpath as [Hd | Hu Hlim | rv2 s2 c Hu Hlim Hrw Hfr].
    + split; [exact HLs|]. split; [|split; [exact Hleft | exact Hsat]].
      unpath. rewrite total_insps_app, Hmade. cbn.
      destruct (_ <? 0) eqn:G; [zbool; lia | lia].
    + exact Hsat.
    + assert (H1 : nTotalInspectLimit (pParams s2) = L /\
                   nTotalInspectsMade (pParams s2) = made0 + total_insps (trace s2) /\
                   nTotalInspectsMade (pParams s2) < L /\
                   inspect_budget L made0 (trace s2)).
      { assert (Hlt1 : nTotalInspectsMade (pParams s0) + sat_insps (sat_call nIter s0) < L).
        { apply limit_not_reached_inspects in Hlim;
            rewrite ?made_add_totals, ?limit_add_totals in *; lia. }
        assert (Hm1 : nTotalInspectsMade (pParams s0) + sat_insps (sat_call nIter s0) =
                      made0 + total_insps (trace s0 ++ [sat_event nIter s0])).
        { rewrite total_insps_app, Hmade. cbn.
          destruct (_ <? 0) eqn:G; [lia | zbool; lia]. }
        destruct Hrw as [Hoff | j Hon Hj].
        - unpath. rewrite made_add_totals, limit_add_totals. repeat split; assumption.
        - unpath. rewrite made_add_totals, limit_add_totals.
          split; [exact HLs|]. split; [|split; [exact Hlt1|]].
          + rewrite total_insps_app, total_insps_transforms. lia.
          + apply inspect_budget_app. split; [exact Hsat|]. apply inspect_budget_transforms. }
      destruct H1 as (HL2 & Hmade2 & Hleft2 & Hb2).
      destruct Hfr as [Hoff | f HF Hf Hdec | f HF Hf Hund Hl | f HF Hf Hund Hl].
      * repeat split; assumption.
      * assert (Hfe : inspect_budget L made0 (trace (fraig_state nIter s2 f)))
          by (apply inspect_budget_step; auto).
        split; [exact HL2|]. split; [|split; [exact Hleft2 | exact Hfe]].
        unpath. rewrite total_insps_app, Hmade2. cbn.
        destruct (_ <? 0) eqn:G; [zbool; lia | lia].
      * apply (inspect_budget_step L made0 s2 (fraig_event nIter s2 f) (fr_ntk f)); auto.
      * assert (Hfe : inspect_budget L made0 (trace (fraig_state nIter s2 f)))
          by (apply inspect_budget_step; auto).
        apply limit_not_reached_inspects in Hl; [|rewrite limit_add_totals; lia].
        rewrite made_add_totals, limit_add_totals in Hl.
        unpath. rewrite made_add_totals, limit_add_totals.
        split; [exact HL2|]. split; [|split; [lia | exact Hfe]].
        rewrite total_insps_app, Hmade2. cbn.
        destruct (_ <? 0) eqn:G; [lia | zbool; lia].
  - auto.
  - intros rv s0 r1 s1 (HLs & Hmade & Hleft & Hb) Hpath. rewrite assign_model_trace.
    destruct Hpath as [Hd | m Hu HB HC | Hu HB | Hu HB HC].
    + exact Hb.
    + unpath. apply inspect_budget_snoc; [exact Hb | exact I].
    + apply inspect_budget_step; auto.
    + apply inspect_budget_step; auto.
      * unpath. rewrite total_insps_app, Hmade. cbn. lia.
      * unpath. apply inspect_budget_snoc; [exact Hb | exact I].
  - cbn. repeat split; try reflexivity; try lia.
Qed.

Lemma inspect_budget_bounded (L : Z) (tr : list event) :
  Forall (fun e => 0 <= charged_confs e /\ 0 <= charged_insps e) tr ->
  forall made : Z,
    0 <= made ->
    inspect_budget L made tr ->
    Forall (fun e => forall i : Z, insp_limit_of e = Some i -> 0 < i <= L) tr.
Proof.
  induction 1 as [|e tr [_ He] _ IH]; intros made Hmade Hb; [constructor|].
  cbn [inspect_budget] in Hb. destruct Hb as [Hhead Htail]. constructor.
  - intros i Hi. rewrite Hi in Hhead. lia.
  - apply (IH (made + charged_insps e)); [lia | exact Htail].
Qed.

(** X6. In a call that runs the loop, with engines that report no negative
    consumption, a global inspect limit [L] within [sint64], a total on
    entry with [0 <= nTotalInspectsMade < L], and as long as that total
    plus all the call charges stays within [sint64]: no addition to the
    total overflows, and every SAT and fraiging call (the last SAT attempt
    included) is given exactly the inspects that are left at that point,
    [L] minus the total charged so far, which is positive and at most
    [L]: never 0, which the engines read as no limit. *)
Theorem inspect_budget_respected (fuel : nat) n p (ret : Z) s :
  fUseRewriting p <> 0 \/ fUseFraiging p <> 0 ->
  engines_nonneg ->
  0 <= nTotalInspectsMade p < nTotalInspectLimit p ->
  nTotalInspectLimit p <= 2 ^ 63 - 1 ->
  Abc_NtkMiterProve fuel n p = Ok (ret, s) ->
  nTotalInspectsMade p + total_insps (trace s) <= 2 ^ 63 - 1 ->
  inspect_budget (nTotalInspectLimit p) (nTotalInspectsMade p) (trace s) /\
  (forall pre post : list event,
     trace s = pre ++ post ->
     nTotalInspectsMade p <= nTotalInspectsMade p + total_insps pre <= 2 ^ 63 - 1) /\
  Forall (fun e => forall i : Z, insp_limit_of e = Some i -> 0 < i <= nTotalInspectLimit p)
         (trace s).
Proof.
  intros Hmode HE Hmade HL H Hfinal.
  pose proof (trace_charges_nonneg fuel n p ret s HE H) as HF.
  assert (Hb : inspect_budget (nTotalInspectLimit p) (nTotalInspectsMade p) (trace s))
    by (apply (inspect_budget_in_Z fuel n p ret s); [exact Hmode | lia | lia | exact H]).
  split; [exact Hb|]. split.
  - intros pre post Hsplit. rewrite Hsplit in HF, Hfinal.
    destruct (total_prefix pre post HF) as [_ Hi]. lia.
  - apply (inspect_budget_bounded _ _ HF (nTotalInspectsMade p)); [lia | exact Hb].
Qed.

(** ** The limits of the iterations *)

Lemma sat_limits_app (a b : list event) : sat_limits (a ++ b) = sat_limits a ++ sat_limits b.
Proof. apply flat_map_app. Qed.

Lemma fraig_limits_app (a b : list event) :
  fraig_limits (a ++ b) = fraig_limits a ++ fraig_limits b.
Proof. apply flat_map_app. Qed.

Lemma sat_limits_transforms (ts : list transform) : sat_limits (map EvTransform ts) = [].
Proof. induction ts as [|t ts IH]; [reflexivity | exact IH]. Qed.

Lemma fraig_limits_transforms (ts : list transform) : fraig_limits (map EvTransform ts) = [].
Proof. induction ts as [|t ts IH]; [reflexivity | exact IH]. Qed.

Lemma on_schedule_sat (p0 : Params) (i j : nat) (tr : list event) (l a r c k : Z) :
  on_schedule p0 i j tr ->
  l = sat_limit_at p0 (Z.of_nat i) ->
  on_schedule p0 (S i) j (tr ++ [EvSat l a true r c k]).
Proof.
  intros [Hs Hf] ->. split.
  - rewrite sat_limits_app, Hs, seq_S, map_app. reflexivity.
  - rewrite fraig_limits_app, Hf. cbn. apply app_nil_r.
Qed.

Lemma on_schedule_fraig (p0 : Params) (i j : nat) (tr : list event) (l a r c k : Z) :
  on_schedule p0 i j tr ->
  l = fraig_limit_at p0 (Z.of_nat j) ->
  on_schedule p0 i (S j) (tr ++ [EvFraig l a r c k]).
Proof.
  intros [Hs Hf] ->. split.
  - rewrite sat_limits_app, Hs. cbn. apply app_nil_r.
  - rewrite fraig_limits_app, Hf, seq_S, map_app. reflexivity.
Qed.

Lemma on_schedule_transforms (p0 : Params) (i j : nat) (tr : list event) (ts : list transform) :
  on_schedule p0 i j tr -> on_schedule p0 i j (tr ++ map EvTransform ts).
Proof.
  intros [Hs Hf]. split.
  - rewrite sat_limits_app, sat_limits_transforms, Hs. apply app_nil_r.
  - rewrite fraig_limits_app, fraig_limits_transforms, Hf. apply app_nil_r.
Qed.

Lemma on_schedule_other (p0 : Params) (i j : nat) (tr : list event) (e : event) :
  on_schedule p0 i j tr ->
  sat_limits [e] = [] ->
  fraig_limits [e] = [] ->
  on_schedule p0 i j (tr ++ [e]).
Proof.
  intros [Hs Hf] H1 H2. split.
  - rewrite sat_limits_app, H1, Hs. apply app_nil_r.
  - rewrite fraig_limits_app, H2, Hf. apply app_nil_r.
Qed.

(** X9. In a call that runs the loop, the SAT calls of the loop are those
    of iterations 0, 1, ..., [m - 1] for some [m] up to [nItersMax], each
    with the conflict limit the parameters give for its iteration, and the
    fraiging calls are those of iterations 0, ..., [m' - 1] with their
    backtrack limits; with fraiging on, [m'] is [m] or [m - 1]. *)
Theorem limits_follow_schedule (fuel : nat) n p (ret : Z) s :
  fUseRewriting p <> 0 \/ fUseFraiging p <> 0 ->
  Abc_NtkMiterProve fuel n p = Ok (ret, s) ->
  exists m m' : nat,
    (m <= Z.to_nat (nItersMax p))%nat /\
    (m' <= m)%nat /\
    (fUseFraiging p <> 0 -> (m <= S m')%nat) /\
    on_schedule p m m' (trace s).
Proof.
  intros Hmode H. rewrite (Abc_NtkMiterProve_loop fuel n p Hmode) in H.
  revert H.
  set (N := Z.to_nat (nItersMax p)).
  apply (prove_from_invariant
           (fun k nIter _ s =>
              exists i j : nat,
                nIter = Z.of_nat i /\ (i + k = N)%nat /\
                (fUseFraiging p <> 0 -> j = i) /\ (j <= i)%nat /\
                (exists a b, pParams s = add_totals p a b) /\
                on_schedule p i j (trace s))
           (fun _ s =>
              exists m m' : nat,
                (m <= N)%nat /\ (m' <= m)%nat /\
                (fUseFraiging p <> 0 -> (m <= S m')%nat) /\
                on_schedule p m m' (trace s))
           (fun s =>
              exists m m' : nat,
                (m <= N)%nat /\ (m' <= m)%nat /\
                (fUseFraiging p <> 0 -> (m <= S m')%nat) /\
                on_schedule p m m' (trace s))
           (fun _ s =>
              exists m m' : nat,
                (m <= N)%nat /\ (m' <= m)%nat /\
                (fUseFraiging p <> 0 -> (m <= S m')%nat) /\
                on_schedule p m m' (trace s))).
  - intros nIter rv s0 (i & j & _ & Hi & Hj & Hle & _ & Hs).
    exists i, j. split; [lia|]. split; [exact Hle|]. split; [|exact Hs].
    intros HF. rewrite (Hj HF). lia.
  - intros k nIter rv s0 c (i & j & -> & Hi & Hj & Hle & (a & b & Hp) & Hs) Hpath.
    assert (Hsat : on_schedule p (S i) j (trace (sat_state (Z.of_nat i) s0))).
    { unpath. apply on_schedule_sat; [exact Hs|]. rewrite Hp. reflexivity. }
    destruct Hpath as [Hd | Hu Hlim | rv2 s2 c Hu Hlim Hrw Hfr].
    + exists (S i), j. split; [lia|]. split; [lia|]. split; [|exact Hsat].
      intros HF. rewrite (Hj HF). lia.
    + exists (S i), j. split; [lia|]. split; [lia|]. split; [|exact Hsat].
      intros HF. rewrite (Hj HF). lia.
    + assert (H2 : (exists a b, pParams s2 = add_totals p a b) /\
                   on_schedule p (S i) j (trace s2)).
      { destruct Hrw as [Hoff | t Hon Ht]; unpath.
        - split; [|exact Hsat]. rewrite Hp, add_totals_add. eauto.
        - split; [rewrite Hp, add_totals_add; eauto|].
          now apply on_schedule_transforms. }
      destruct H2 as [(a2 & b2 & Hp2) Hs2].
      destruct Hfr as [Hoff | f HF Hf Hdec | f HF Hf Hund Hl | f HF Hf Hund Hl].
      * exists (S i), j. split; [lia|]. split; [lia|]. split; [|split; [lia|]].
        -- intros HF. rewrite Hp2 in Hoff. cbn in Hoff. contradiction.
        -- split; [eauto | exact Hs2].
      * assert (Hji : j = i) by (apply Hj; rewrite Hp2 in HF; exact HF). subst j.
        exists (S i), (S i). split; [lia|]. split; [lia|]. split; [lia|].
        unpath. apply on_schedule_fraig; [exact Hs2|]. rewrite Hp2. reflexivity.
      * assert (Hji : j = i) by (apply Hj; rewrite Hp2 in HF; exact HF). subst j.
        exists (S i), (S i). split; [lia|]. split; [lia|]. split; [lia|].
        unpath. apply on_schedule_fraig; [exact Hs2|]. rewrite Hp2. reflexivity.
      * assert (Hji : j = i) by (apply Hj; rewrite Hp2 in HF; exact HF). subst j.
        exists (S i), (S i). split; [lia|]. split; [lia|]. split; [reflexivity|].
        split; [lia|]. split.
        -- unpath. rewrite Hp2, add_totals_add. eauto.
        -- unpath. apply on_schedule_fraig; [exact Hs2|]. rewrite Hp2. reflexivity.
  - auto.
  - intros rv s0 r1 s1 (m & m' & Hm & Hm' & HF & Hs) Hpath. rewrite assign_model_trace.
    exists m, m'. split; [exact Hm|]. split; [exact Hm'|]. split; [exact HF|].
    destruct Hpath as [Hd | x Hu HB HC | Hu HB | Hu HB HC]; unpath.
    + exact Hs.
    + now apply on_schedule_other.
    + now apply on_schedule_other.
    + apply on_schedule_other; [|reflexivity|reflexivity]. now apply on_schedule_other.
  - exists O, O. split; [reflexivity|]. split; [lia|]. split; [reflexivity|].
    split; [lia|]. split; [|split; reflexivity].
    exists 0, 0. now rewrite add_totals_0.
Qed.

(** ** A verdict in the loop *)

Lemma after_loop_decided (rv : Z) s :
  0 <= rv -> after_loop (Some rv) s = Ok (assign_model rv s).
Proof.
  intros H. unfold after_loop, stage_bdd.
  destruct (rv <? 0) eqn:L; [zbool; lia|]. cbn [andb].
  now rewrite stage_last_sat_skipped.
Qed.

Lemma prove_from_break (fuel k : nat) (nIter r : Z) (rv : option Z) s s' :
  iteration fuel nIter s = Ok (Break r s') ->
  0 <= r ->
  prove_from fuel (S k) nIter rv s = Ok (assign_model r s').
Proof.
  intros H Hr. unfold prove_from. cbn [for_loop]. rewrite H. cbn [bind].
  now apply after_loop_decided.
Qed.

(** X3. A verdict (a value of 0 or more) returned by the SAT call or by the
    fraiging call of any iteration ends the call: what is returned is that
    value with the network that call left, after the assignment of the
    model; the totals are not charged for that call, and no collapse and no
    last SAT attempt is made. *)
Theorem verdict_ends_call (fuel k : nat) (nIter : Z) (rv : option Z) s :
  (0 <= sat_ret (sat_call nIter s) ->
   prove_from fuel (S k) nIter rv s =
   Ok (assign_model (sat_ret (sat_call nIter s))
         {| pNtk := sat_ntk (sat_call nIter s);
            pParams := pParams s;
            trace := trace s ++ [sat_event nIter s] |}))
  /\
  (forall (rv1 rv2 : Z) (s1 s2 : State) (f : fraig_result Aig),
     stage_sat nIter s = Continue rv1 s1 ->
     stage_rewriting fuel nIter rv1 s1 = Ok (rv2, s2) ->
     fUseFraiging (pParams s2) <> 0 ->
     fraig_call nIter s2 = Ok f ->
     0 <= fr_ret f ->
     prove_from fuel (S k) nIter rv s =
     Ok (assign_model (fr_ret f)
           {| pNtk := fr_ntk f;
              pParams := pParams s2;
              trace := trace s2 ++ [fraig_event nIter s2 f] |})).
Proof.
  split.
  - intros Hd. apply prove_from_break; [|exact Hd].
    unfold iteration. rewrite stage_sat_path. cbv zeta.
    destruct (_ >=? 0) eqn:G; [reflexivity | zbool; lia].
  - intros rv1 rv2 s1 s2 f Hsat Hrw HF Hf Hd.
    apply prove_from_break; [|exact Hd].
    unfold iteration. rewrite Hsat, Hrw. cbn [bind].
    exact (stage_fraiging_decided nIter rv2 s2 f HF Hf Hd).
Qed.

Lemma Abc_NtkMiterFraig_model n (a b : Z) (f : fraig_result Aig) :
  Abc_NtkMiterFraig n a b = Ok f ->
  exists m,
    fr_ret f = Fraig_ManCheckMiter m /\
    (fr_ret f = 0 ->
     ntkAig (fr_ntk f) = ntkAig (Abc_NtkFromFraig m n) /\
     pModel (fr_ntk f) =
     Some (firstn (Z.to_nat (Abc_NtkCiNum (ntkAig (fr_ntk f)))) (Fraig_ManReadModel m))) /\
    (fr_ret f <> 0 -> fr_ntk f = Abc_NtkFromFraig m n).
Proof.
  unfold Abc_NtkMiterFraig.
  destruct (_ =? 0); [discriminate|]. intros [= <-]. cbn [fr_ret fr_ntk].
  eexists. split; [reflexivity|].
  destruct (Fraig_ManCheckMiter _ =? 0) eqn:G; zbool.
  - split; [intros _; split; reflexivity | intros H; contradiction].
  - split; [intros H; contradiction | reflexivity].
Qed.

(** What [Abc_NtkMiterFraig] returns, in terms of the manager it ran. *)
Lemma Abc_NtkMiterFraig_man n (a b : Z) (f : fraig_result Aig) :
  Abc_NtkMiterFraig n a b = Ok f ->
  let man := fraig_man n a b in
  let built := Abc_NtkFromFraig man n in
  fr_ret f = Fraig_ManCheckMiter man /\
  fr_confs f = Fraig_ManReadConflicts man /\
  fr_insps f = Fraig_ManReadInspects man /\
  fr_ntk f =
  if Fraig_ManCheckMiter man =? 0
  then set_pModel built
         (Some (firstn (Z.to_nat (Abc_NtkCiNum (ntkAig built))) (Fraig_ManReadModel man)))
  else built.
Proof.
  unfold Abc_NtkMiterFraig, fraig_man, fraig_params, fraig_words.
  destruct (_ =? 0); [discriminate|]. intros [= <-]. cbn [fr_ret fr_ntk fr_confs fr_insps].
  repeat split; reflexivity.
Qed.

(** X2. When the fraiging call of an iteration returns 0 (SAT), the call
    returns 0 with the very network the fraiging left: the network built
    from the manager of that fraiging call, with the first [Abc_NtkCiNum]
    values of that manager's model as its model; the assignment of lines
    206-210 leaves it alone. *)
Theorem fraig_sat_keeps_model (fuel k : nat) (nIter : Z) (rv : option Z) s
        (rv1 rv2 : Z) (s1 s2 : State) (f : fraig_result Aig) :
  stage_sat nIter s = Continue rv1 s1 ->
  stage_rewriting fuel nIter rv1 s1 = Ok (rv2, s2) ->
  fUseFraiging (pParams s2) <> 0 ->
  fraig_call nIter s2 = Ok f ->
  fr_ret f = 0 ->
  let man := fraig_man (pNtk s2) (fraig_limit_at (pParams s2) nIter)
                       (inspect_limit (pParams s2)) in
  let built := Abc_NtkFromFraig man (pNtk s2) in
  Fraig_ManCheckMiter man = 0 /\
  fr_ntk f =
  set_pModel built
    (Some (firstn (Z.to_nat (Abc_NtkCiNum (ntkAig built))) (Fraig_ManReadModel man))) /\
  prove_from fuel (S k) nIter rv s =
  Ok (0, {| pNtk := fr_ntk f;
            pParams := pParams s2;
            trace := trace s2 ++ [fraig_event nIter s2 f] |}).
Proof.
  intros Hsat Hrw HF Hf H0 man built.
  destruct (Abc_NtkMiterFraig_man _ _ _ f Hf) as (Hret & _ & _ & Hntk).
  fold man built in Hret, Hntk.
  assert (Hcheck : Fraig_ManCheckMiter man = 0) by congruence.
  rewrite Hcheck in Hntk. cbn [Z.eqb] in Hntk.
  split; [exact Hcheck|]. split; [exact Hntk|].
  rewrite (prove_from_break fuel k nIter (fr_ret f) rv s
             {| pNtk := fr_ntk f; pParams := pParams s2;
                trace := trace s2 ++ [fraig_event nIter s2 f] |}).
  - rewrite H0. erewrite assign_model_kept; [reflexivity|].
    cbn [pNtk]. rewrite Hntk. reflexivity.
  - unfold iteration. rewrite Hsat, Hrw. cbn [bind].
    apply (stage_fraiging_decided nIter rv2 s2 f HF Hf). lia.
  - lia.
Qed.

(** ** A rewriting budget of zero or less *)

(** X7. A step budget of zero or less does not switch rewriting off: the
    test [--Counter == 0] then never holds, so (within the range of the
    [int] counter) the loop is only left by a constant network.  If it
    returns, it returns a verdict; on a network that no step of the
    rotation makes constant it does not return. *)
Theorem nonpositive_budget_unbounded (fuel : nat) :
  forall (Counter : Z) s,
    Counter <= 0 ->
    - 2 ^ 31 <= Counter - 3 * Z.of_nat fuel ->
    (forall (r : Z) (s' : State), rewriting_loop fuel Counter s = Ok (r, s') -> 0 <= r) /\
    ((forall k : nat, (1 <= k <= 3 * fuel)%nat ->
        Abc_NtkMiterIsConstant (transformed (rotation k Rewrite) (pNtk s)) < 0) ->
     rewriting_loop fuel Counter s = Fault OutOfFuel).
Proof.
  induction fuel as [|fuel IH]; intros Counter s Hneg Hrange.
  - split; [discriminate | reflexivity].
  - destruct (IH (Counter - 1 - 1 - 1) (after_transforms (rotation 3 Rewrite) s))
      as [IHa IHb]; [lia | lia |].
    rewrite rewriting_loop_pass. cbv zeta.
    destruct (Counter - 1 =? 0) eqn:K1; [zbool; lia|].
    destruct (Counter - 1 - 1 =? 0) eqn:K2; [zbool; lia|].
    destruct (Counter - 1 - 1 - 1 =? 0) eqn:K3; [zbool; lia|].
    split.
    + intros r s'.
      destruct (Abc_NtkMiterIsConstant (pNtk (after_transforms (rotation 1 Rewrite) s)) >=? 0) eqn:C1;
        [intros [= <- _]; zbool; exact C1|].
      destruct (Abc_NtkMiterIsConstant (pNtk (after_transforms (rotation 2 Rewrite) s)) >=? 0) eqn:C2;
        [intros [= <- _]; zbool; exact C2|].
      destruct (Abc_NtkMiterIsConstant (pNtk (after_transforms (rotation 3 Rewrite) s)) >=? 0) eqn:C3;
        [intros [= <- _]; zbool; exact C3|].
      apply IHa.
    + intros Hnever.
      pose proof (Hnever 1%nat ltac:(lia)) as N1.
      pose proof (Hnever 2%nat ltac:(lia)) as N2.
      pose proof (Hnever 3%nat ltac:(lia)) as N3.
      cbn [pNtk after_transforms].
      destruct (Abc_NtkMiterIsConstant (transformed (rotation 1 Rewrite) (pNtk s)) >=? 0) eqn:C1;
        [zbool; lia|].
      destruct (Abc_NtkMiterIsConstant (transformed (rotation 2 Rewrite) (pNtk s)) >=? 0) eqn:C2;
        [zbool; lia|].
      destruct (Abc_NtkMiterIsConstant (transformed (rotation 3 Rewrite) (pNtk s)) >=? 0) eqn:C3;
        [zbool; lia|].
      apply IHb. intros j Hj. cbn [pNtk after_transforms].
      rewrite <- transformed_app, <- rotation_plus_3. apply Hnever. lia.
Qed.

(** ** The simulation patterns of the fraiging call *)

Lemma fraig_words_spec (d : Z) :
  0 < d ->
  0 <= fraig_words d <= 32 /\
  fraig_words d * d <= 2 ^ 27 /\
  (fraig_words d = 32 <-> d <= 2 ^ 22) /\
  (fraig_words d = 0 <-> 2 ^ 27 < d).
Proof.
  intros Hd. unfold fraig_words.
  change (Z.shiftl 1 27) with 134217728.
  change (2 ^ 27) with 134217728. change (2 ^ 22) with 4194304.
  rewrite Z.quot_div_nonneg by lia.
  pose proof (Z.mul_div_le 134217728 d Hd) as Hlo.
  pose proof (Z.mul_succ_div_gt 134217728 d Hd) as Hhi.
  assert (Hq : 0 <= 134217728 / d) by (apply Z.div_pos; lia).
  set (q := 134217728 / d) in *.
  destruct (Z.min_spec 32 q) as [[Hlt ->] | [Hle ->]].
  - split; [lia|]. split; [nia|]. split; [split; [nia | reflexivity]|].
    split; [lia | nia].
  - split; [lia|]. split; [nia|]. split; nia.
Qed.

(** X1. [Abc_NtkMiterFraig] divides by the number of nodes and inputs:
    with none of either it divides by zero.  Otherwise it runs the fraig
    manager with the limits it was given and with [32 * w] random and as
    many dynamic patterns, where [w] is at most 32 words and keeps
    [w * (nodes + inputs)] within [2^27]; [w] is 32 exactly up to [2^22]
    nodes and inputs, and 0 (no simulation patterns at all) beyond
    [2^27]. *)
Theorem fraig_pattern_budget n (bt insp : Z) :
  let d := Abc_NtkNodeNum (ntkAig n) + Abc_NtkCiNum (ntkAig n) in
  (d = 0 -> Abc_NtkMiterFraig n bt insp = Fault DivByZero) /\
  (0 < d ->
   exists (P : Fraig_Params_t) (f : fraig_result Aig),
     Abc_NtkMiterFraig n bt insp = Ok f /\
     fr_ret f = Fraig_ManCheckMiter (Fraig_ManProveMiter (Abc_NtkToFraig n P)) /\
     nBTLimit P = bt /\ nInspLimit P = insp /\
     nPatsRand P = fraig_words d * 32 /\ nPatsDyna P = fraig_words d * 32 /\
     0 <= fraig_words d <= 32 /\
     fraig_words d * d <= 2 ^ 27 /\
     (fraig_words d = 32 <-> d <= 2 ^ 22) /\
     (fraig_words d = 0 <-> 2 ^ 27 < d)).
Proof.
  intros d. split.
  - intros H0. unfold Abc_NtkMiterFraig. fold d. rewrite H0. reflexivity.
  - intros Hd. unfold Abc_NtkMiterFraig. fold d.
    destruct (d =? 0) eqn:D; [zbool; lia|].
    eexists _, _. split; [reflexivity|]. cbn [fr_ret nBTLimit nInspLimit nPatsRand nPatsDyna].
    split; [reflexivity|]. split; [reflexivity|]. split; [reflexivity|].
    split; [reflexivity|]. split; [reflexivity|].
    exact (fraig_words_spec d Hd).
Qed.

(** ** When a call returns *)

Lemma rewriting_loop_returns (fuel : nat) :
  forall (Counter : Z) s,
    0 < Counter ->
    Counter <= 3 * Z.of_nat fuel ->
    exists (r : Z) (s' : State), rewriting_loop fuel Counter s = Ok (r, s').
Proof.
  induction fuel as [|fuel IH]; intros Counter s Hpos Hfuel; [lia|].
  rewrite rewriting_loop_pass. cbv zeta.
  repeat match goal with
         | |- exists r s', (if ?b then _ else _) = _ => destruct b eqn:?
         end; eauto.
  apply IH; zbool; lia.
Qed.

Lemma iteration_returns (fuel : nat) (nIter : Z) s :
  (fUseRewriting (pParams s) <> 0 ->
   0 < rewriting_limit_at (pParams s) nIter <= 3 * Z.of_nat fuel) ->
  (fUseFraiging (pParams s) <> 0 ->
   forall a : Aig, Abc_NtkNodeNum a + Abc_NtkCiNum a <> 0) ->
  exists c, iteration fuel nIter s = Ok c.
Proof.
  intros Hrw Hfr. unfold iteration. rewrite stage_sat_path. cbv zeta.
  destruct (_ >=? 0); [eauto|]. destruct (limit_reached _); [eauto|].
  set (s1 := account _ _ _).
  assert (Hstage : exists rv2 s2, stage_rewriting fuel nIter (sat_ret (sat_call nIter s)) s1
                                  = Ok (rv2, s2) /\ pParams s2 = pParams s1).
  { unfold stage_rewriting. destruct (truthy (fUseRewriting (pParams s1))) eqn:T.
    - assert (HR : fUseRewriting (pParams s) <> 0) by (unfold truthy in T; zbool; exact T).
      destruct (Hrw HR) as [Hpos Hfuel].
      destruct (rewriting_loop_returns fuel _ s1 Hpos Hfuel) as (r & s' & Hrun).
      exists r, s'. split; [exact Hrun|].
      apply rewriting_loop_inv in Hrun. destruct Hrun as (k & _ & -> & _). reflexivity.
    - eauto. }
  destruct Hstage as (rv2 & s2 & -> & Hp2). cbn [bind].
  unfold stage_fraiging. rewrite Hp2.
  destruct (truthy (fUseFraiging (pParams s1))) eqn:T; [|eauto].
  assert (HF : fUseFraiging (pParams s) <> 0) by (unfold truthy in T; zbool; exact T).
  unfold Abc_NtkMiterFraig.
  destruct (_ =? 0) eqn:D; [zbool; now apply Hfr in D|].
  cbn [bind]. cbv zeta.
  destruct (_ >=? 0); [eauto|]. destruct (limit_reached _); eauto.
Qed.

(** X10. A call that runs the loop with at least one iteration returns
    (no division by zero, no read of an unassigned [RetValue], no endless
    rewriting) provided that, when rewriting is on, the step budget of
    every iteration is positive and within the fuel, and that, when
    fraiging is on, no network has zero nodes and inputs. *)
Theorem call_returns (fuel : nat) n p :
  fUseRewriting p <> 0 \/ fUseFraiging p <> 0 ->
  1 <= nItersMax p ->
  (fUseRewriting p <> 0 ->
   forall i : Z, 0 <= i < nItersMax p ->
     0 < rewriting_limit_at p i <= 3 * Z.of_nat fuel) ->
  (fUseFraiging p <> 0 ->
   forall a : Aig, Abc_NtkNodeNum a + Abc_NtkCiNum a <> 0) ->
  exists (ret : Z) s, Abc_NtkMiterProve fuel n p = Ok (ret, s).
Proof.
  intros Hmode Hcap Hrw Hfr. rewrite (Abc_NtkMiterProve_loop fuel n p Hmode).
  assert (Hloop : forall (k : nat) (nIter : Z) (rv : option Z) s,
             accounted p s ->
             0 <= nIter ->
             nIter + Z.of_nat k <= nItersMax p ->
             exists x, for_loop fuel k nIter rv s = Ok x).
  { induction k as [|k IH]; intros nIter rv s A Hlo Hhi; [cbn; eauto|].
    cbn [for_loop].
    destruct (iteration_returns fuel nIter s) as (c & Hc).
    - unfold accounted in A. rewrite A. intros HR. apply (Hrw HR). lia.
    - unfold accounted in A. rewrite A. exact Hfr.
    - rewrite Hc. cbn [bind].
      pose proof (iteration_accounted p fuel nIter s c Hc A) as A1.
      destruct c as [r s1 | r s1 | r s1]; [|eauto|eauto].
      apply IH; [exact A1 | lia | lia]. }
  unfold prove_from.
  destruct (Hloop (Z.to_nat (nItersMax p)) 0 None {| pNtk := n; pParams := p; trace := [] |})
    as (x & Hx); [unfold accounted; cbn; now rewrite add_totals_0 | lia | lia |].
  rewrite Hx. cbn [bind].
  destruct x as [[r s1] | [[r|] s1]].
  - eauto.
  - destruct (after_loop_assigned r s1) as ([ret s] & Hy). eauto.
  - apply for_loop_unassigned in Hx. lia.
Qed.

(** ** Without a global inspect limit *)

(** X11. With [nTotalInspectLimit] 0, every SAT and fraiging call of the
    call, in either mode, is given the inspect limit 0. *)
Theorem no_inspect_limit (fuel : nat) n p (ret : Z) s :
  nTotalInspectLimit p = 0 ->
  Abc_NtkMiterProve fuel n p = Ok (ret, s) ->
  Forall (fun e => forall i : Z, insp_limit_of e = Some i -> i = 0) (trace s).
Proof.
  intros HL.
  assert (Hzero : forall q : Params, nTotalInspectLimit q = 0 -> inspect_limit q = 0)
    by (intros q Hq; unfold inspect_limit; now rewrite (truthy_zero _ Hq)).
  destruct (Abc_NtkMiterProve_modes fuel n p) as [(_ & _ & ->) | (_ & ->)].
  - intros [= _ <-]. repeat constructor. cbn. now intros i [= <-].
  - apply (prove_from_invariant
             (fun _ _ _ s =>
                nTotalInspectLimit (pParams s) = 0 /\
                Forall (fun e => forall i : Z, insp_limit_of e = Some i -> i = 0) (trace s))
             (fun _ s =>
                nTotalInspectLimit (pParams s) = 0 /\
                Forall (fun e => forall i : Z, insp_limit_of e = Some i -> i = 0) (trace s))
             (fun s => Forall (fun e => forall i : Z, insp_limit_of e = Some i -> i = 0) (trace s))
             (fun _ s => Forall (fun e => forall i : Z, insp_limit_of e = Some i -> i = 0) (trace s))).
    + auto.
    + intros k nIter rv s0 c [HL0 HP] Hpath.
      assert (Hsat : Forall (fun e => forall i : Z, insp_limit_of e = Some i -> i = 0)
                            (trace (sat_state nIter s0))).
      { unpath. apply Forall_snoc; [exact HP|]. cbn. intros i [= <-]. now apply Hzero. }
      destruct Hpath as [Hd | Hu Hlim | rv2 s2 c Hu Hlim Hrw Hfr].
      * split; [exact HL0 | exact Hsat].
      * exact Hsat.
      * assert (H2 : nTotalInspectLimit (pParams s2) = 0 /\
                     Forall (fun e => forall i : Z, insp_limit_of e = Some i -> i = 0) (trace s2)).
        { destruct Hrw as [Hoff | j Hon Hj]; unpath.
          - split; [exact HL0 | exact Hsat].
          - split; [exact HL0|]. apply Forall_app. split; [exact Hsat|].
            apply Forall_transforms. intros t i. discriminate. }
        destruct H2 as [HL2 H2].
        assert (Hfe : forall f, Forall (fun e => forall i : Z, insp_limit_of e = Some i -> i = 0)
                                       (trace (fraig_state nIter s2 f))).
        { intros f. unpath. apply Forall_snoc; [exact H2|].
          cbn. intros i [= <-]. now apply Hzero. }
        destruct Hfr as [Hoff | f HF Hf Hdec | f HF Hf Hund Hl | f HF Hf Hund Hl].
        -- split; [exact HL2 | exact H2].
        -- split; [exact HL2 | apply Hfe].
        -- apply Hfe.
        -- split; [exact HL2 | apply Hfe].
    + auto.
    + intros rv s0 r1 s1 [HL0 HQ] Hpath. rewrite assign_model_trace.
      destruct Hpath as [Hd | m Hu HB HC | Hu HB | Hu HB HC]; unpath.
      * exact HQ.
      * apply Forall_snoc; [exact HQ|]. intros i. discriminate.
      * apply Forall_snoc; [exact HQ|]. cbn. intros i [= <-]. now apply Hzero.
      * apply Forall_snoc; [|cbn; intros i [= <-]; now apply Hzero].
        apply Forall_snoc; [exact HQ|]. intros i. discriminate.
    + split; [exact HL | constructor].
Qed.

(** ** The limits of one iteration *)



End Paths.

(** * The further properties on the concrete instance *)

(* The engines of the concrete instance consume 5 and 7, or 3 and 4. *)
Lemma toy_engines_nonneg : engines_nonneg (E := Toy.engines).
Proof.
  split.
  - intros n l i. cbn. unfold Toy.sat.
    destruct (ntkAig n =? 100); [cbn; lia|]. destruct (l >=? 1000); cbn; lia.
  - intros m. cbn. lia.
Qed.

(* A network of 5 nodes and 2 inputs: 32 words, 1024 patterns. *)
Lemma fraig_pattern_budget_witness :
  exists (P : Fraig_Params_t) (f : fraig_result Z),
    Abc_NtkMiterFraig (Toy.ntk 5) 4 0 = Ok f /\
    fr_ret f = Fraig_ManCheckMiter (Fraig_ManProveMiter (Abc_NtkToFraig (Toy.ntk 5) P)) /\
    nBTLimit P = 4 /\ nInspLimit P = 0 /\
    nPatsRand P = fraig_words 7 * 32 /\ nPatsDyna P = fraig_words 7 * 32 /\
    0 <= fraig_words 7 <= 32 /\
    fraig_words 7 * 7 <= 2 ^ 27 /\
    (fraig_words 7 = 32 <-> 7 <= 2 ^ 22) /\
    (fraig_words 7 = 0 <-> 2 ^ 27 < 7).
Proof.
  exact (proj2 (fraig_pattern_budget (Toy.ntk 5) 4 0) eq_refl).
Defined.

(* Fraiging finds the constant network 0 satisfiable in the first iteration:
   the manager is 0 and its model [0; 0]. *)
Lemma fraig_sat_keeps_model_witness :
  let s := {| pNtk := Toy.ntk 0; pParams := Toy.params 1 0 0 1 3 0; trace := [] |} in
  let man := fraig_man (Toy.ntk 0) 4 0 in
  let built := Abc_NtkFromFraig man (Toy.ntk 0) in
  Fraig_ManCheckMiter man = 0 /\
  {| ntkAig := 0; pModel := Some [0; 0] |} =
  set_pModel built
    (Some (firstn (Z.to_nat (Abc_NtkCiNum (ntkAig built))) (Fraig_ManReadModel man))) /\
  prove_from 1 1 0 None s =
  Ok (0, {| pNtk := {| ntkAig := 0; pModel := Some [0; 0] |};
            pParams := add_totals (Toy.params 1 0 0 1 3 0) 5 7;
            trace := [EvSat 10 0 true (-1) 5 7; EvFraig 4 0 0 3 4] |}).
Proof.
  intros s.
  assert (HF : fUseFraiging (add_totals (Toy.params 1 0 0 1 3 0) 5 7) <> 0) by (cbn; lia).
  exact (fraig_sat_keeps_model 1 0 0 None s (-1) (-1)
           {| pNtk := Toy.ntk 0;
              pParams := add_totals (Toy.params 1 0 0 1 3 0) 5 7;
              trace := [EvSat 10 0 true (-1) 5 7] |}
           {| pNtk := Toy.ntk 0;
              pParams := add_totals (Toy.params 1 0 0 1 3 0) 5 7;
              trace := [EvSat 10 0 true (-1) 5 7] |}
           {| fr_ntk := {| ntkAig := 0; pModel := Some [0; 0] |};
              fr_ret := 0; fr_fails := 0; fr_confs := 3; fr_insps := 4 |}
           eq_refl eq_refl HF eq_refl eq_refl).
Defined.

(* The solver finds a model for network 100 in the first iteration. *)
Lemma verdict_ends_call_witness :
  prove_from 1 1 0 None
    {| pNtk := Toy.ntk 100; pParams := Toy.params 1 1 0 1 3 0; trace := [] |} =
  Ok (0, {| pNtk := {| ntkAig := 100; pModel := Some [1; 1] |};
            pParams := Toy.params 1 1 0 1 3 0;
            trace := [EvSat 10 0 true 0 5 7] |}).
Proof.
  assert (Hd : 0 <= sat_ret (sat_call 0
                    {| pNtk := Toy.ntk 100; pParams := Toy.params 1 1 0 1 3 0; trace := [] |}))
    by (cbn; lia).
  exact (proj1 (verdict_ends_call 1 0 0 None
                  {| pNtk := Toy.ntk 100; pParams := Toy.params 1 1 0 1 3 0; trace := [] |})
           Hd).
Defined.

(* Two iterations with fraiging and BDDs off. *)
Lemma disabled_engines_not_called_witness :
  exists (ret : Z) (s : @state Z Z),
    Abc_NtkMiterProve 1 (Toy.ntk 5) (Toy.params 0 1 0 2 3 0) = Ok (ret, s) /\
    Forall (enabled_event (Toy.params 0 1 0 2 3 0)) (trace s).
Proof.
  eexists _, _. split; [vm_compute; reflexivity|].
  apply (disabled_engines_not_called 1 (Toy.ntk 5) (Toy.params 0 1 0 2 3 0) 0).
  vm_compute; reflexivity.
Defined.

(* Two iterations, 10 conflicts and 14 inspects charged. *)
Lemma totals_never_decrease_witness :
  exists (ret : Z) (s : @state Z Z),
    Abc_NtkMiterProve 1 (Toy.ntk 5) (Toy.params 0 1 0 2 3 0) = Ok (ret, s) /\
    (forall pre post : list event,
       trace s = pre ++ post ->
       in_sint64 (0 + total_confs pre) /\ in_sint64 (0 + total_insps pre)) /\
    0 <= nTotalBacktracksMade (pParams s) /\
    0 <= nTotalInspectsMade (pParams s) /\
    in_sint64 (nTotalBacktracksMade (pParams s)) /\
    in_sint64 (nTotalInspectsMade (pParams s)).
Proof.
  eexists _, _. split; [vm_compute; reflexivity|].
  apply (totals_never_decrease 1 (Toy.ntk 5) (Toy.params 0 1 0 2 3 0) 0);
    [exact toy_engines_nonneg | vm_compute; reflexivity
     | unfold in_sint64; cbn; lia | unfold in_sint64; cbn; lia
     | unfold in_sint64; vm_compute; split; discriminate
     | unfold in_sint64; vm_compute; split; discriminate].
Defined.

(* 20 inspects allowed: the calls are given 20, 13, 9 and 2. *)
Lemma inspect_budget_respected_witness :
  exists (ret : Z) (s : @state Z Z),
    Abc_NtkMiterProve 1 (Toy.ntk 5) (Toy.with_inspect_limit 20 (Toy.params 1 1 1 2 1 0))
    = Ok (ret, s) /\
    trace s = [EvSat 10 20 true (-1) 5 7; EvTransform Rewrite; EvFraig 4 13 (-1) 3 4;
               EvSat 20 9 true (-1) 5 7; EvTransform Rewrite; EvFraig 8 2 (-1) 3 4] /\
    inspect_budget 20 0 (trace s) /\
    (forall pre post : list event,
       trace s = pre ++ post -> 0 <= 0 + total_insps pre <= 2 ^ 63 - 1) /\
    Forall (fun e => forall i : Z, insp_limit_of e = Some i -> 0 < i <= 20) (trace s).
Proof.
  eexists _, _. split; [vm_compute; reflexivity|]. split; [reflexivity|].
  apply (inspect_budget_respected 1 (Toy.ntk 5)
           (Toy.with_inspect_limit 20 (Toy.params 1 1 1 2 1 0)) (-1));
    [left; cbn; lia | exact toy_engines_nonneg | cbn; lia | cbn; lia
     | vm_compute; reflexivity | vm_compute; discriminate].
Defined.

(* A budget of 0 on a network ten steps away from a constant. *)
Lemma nonpositive_budget_unbounded_witness :
  rewriting_loop 2 0
    {| pNtk := Toy.ntk 10; pParams := Toy.params 1 1 1 1 0 0; trace := [] |} =
  Fault OutOfFuel.
Proof.
  refine (proj2 (nonpositive_budget_unbounded 2 0
                   {| pNtk := Toy.ntk 10; pParams := Toy.params 1 1 1 1 0 0; trace := [] |}
                   _ _) _).
  - lia.
  - cbn. lia.
  - intros k Hk.
    do 7 (destruct k as [|k]; [first [lia | cbn; lia]|]). lia.
Defined.

Lemma trace_shape_witness :
  exists (ret : Z) (s : @state Z Z),
    Abc_NtkMiterProve 1 (Toy.ntk 50) (Toy.params 1 1 1 1 1 9) = Ok (ret, s) /\
    exists pre tail : list event,
      trace s = pre ++ tail /\
      Forall loop_event pre /\
      tail_shape (limit_reached (pParams s)) ret tail.
Proof.
  eexists _, _. split; [vm_compute; reflexivity|].
  apply (trace_shape 1 (Toy.ntk 50) (Toy.params 1 1 1 1 1 9));
    [left; cbn; lia | vm_compute; reflexivity].
Defined.

Lemma limits_follow_schedule_witness :
  exists (ret : Z) (s : @state Z Z),
    Abc_NtkMiterProve 1 (Toy.ntk 5) (Toy.with_inspect_limit 20 (Toy.params 1 1 1 2 1 0))
    = Ok (ret, s) /\
    exists m m' : nat,
      (m <= 2)%nat /\ (m' <= m)%nat /\
      (fUseFraiging (Toy.with_inspect_limit 20 (Toy.params 1 1 1 2 1 0)) <> 0 ->
       (m <= S m')%nat) /\
      on_schedule (Toy.with_inspect_limit 20 (Toy.params 1 1 1 2 1 0)) m m' (trace s).
Proof.
  eexists _, _. split; [vm_compute; reflexivity|].
  apply (limits_follow_schedule 1 (Toy.ntk 5)
           (Toy.with_inspect_limit 20 (Toy.params 1 1 1 2 1 0)) (-1));
    [left; cbn; lia | vm_compute; reflexivity].
Defined.

(* Rewriting with 3 steps an iteration, fraiging off. *)
Lemma call_returns_witness :
  exists (ret : Z) (s : @state Z Z),
    Abc_NtkMiterProve 1 (Toy.ntk 5) (Toy.params 0 1 0 2 3 0) = Ok (ret, s).
Proof.
  apply (call_returns 1 (Toy.ntk 5) (Toy.params 0 1 0 2 3 0)).
  - left. cbn. lia.
  - cbn. lia.
  - intros _ i Hi. unfold rewriting_limit_at, int_limit. cbn. rewrite Z.pow_1_l by lia. lia.
  - intros H. cbn in H. lia.
Defined.

Lemma no_inspect_limit_witness :
  exists (ret : Z) (s : @state Z Z),
    Abc_NtkMiterProve 1 (Toy.ntk 5) (Toy.params 0 1 0 2 3 0) = Ok (ret, s) /\
    Forall (fun e => forall i : Z, insp_limit_of e = Some i -> i = 0) (trace s).
Proof.
  eexists _, _. split; [vm_compute; reflexivity|].
  apply (no_inspect_limit 1 (Toy.ntk 5) (Toy.params 0 1 0 2 3 0) 0);
    [reflexivity | vm_compute; reflexivity].
Defined.

(** * The limits of the stages in double precision *)




